(** * The augmented taxi OO-MDP (AugmentedTaxi2OOMDPClass.py)

    A shallow embedding of the transition and reward engine of
    [AugmentedTaxi2OOMDP].  Python state objects are mutable and are handed
    around by reference, so the embedding keeps them in a store: a state is
    named by an address, [copy.deepcopy] allocates a fresh address, and the
    setters of the state class update the store in place.  Calls to
    [random.random()] read successive entries of a stream of draws. *)

From Stdlib Require Import QArith Qcanon.
From stdpp Require Import base numbers list strings.

(** ** Objects of the domain *)

(** The agent's attribute dictionary: keys "x", "y", "has_passenger" and,
    when fuel is tracked, "fuel". *)
Record Agent := mkAgent {
  ag_x : Z;
  ag_y : Z;
  ag_has_passenger : Z;
  ag_fuel : option Z
}.

(** A passenger's attribute dictionary. *)
Record Passenger := mkPassenger {
  p_x : Z;
  p_y : Z;
  p_dest_x : Z;
  p_dest_y : Z;
  p_in_taxi : Z
}.

(** Walls, tolls and hotswap stations only carry a position. *)
Record Cell := mkCell { c_x : Z; c_y : Z }.

Record TrafficCell := mkTraffic { t_x : Z; t_y : Z; t_prob : Qc }.

Record FuelStation := mkFuelStation { f_x : Z; f_y : Z; f_max_fuel_capacity : Z }.

(** [AugmentedTaxiState]: the objects that change ([objects["agent"]],
    [objects["passenger"]], [objects["hotswap_station"]]) and the two flags
    of the base state class. *)
Record AugmentedTaxiState := mkState {
  agent : Agent;
  passengers : list Passenger;
  hotswap_stations : list Cell;
  is_terminal : bool;
  is_goal : bool
}.

(** The fields of the MDP instance ([self]) read by the engine. *)
Record AugmentedTaxi2OOMDP := mkMDP {
  width : Z;
  height : Z;
  walls : list Cell;
  tolls : list Cell;
  traffic_cells : list TrafficCell;
  fuel_stations : list FuelStation;
  slip_prob : Qc;
  weights : Qc * Qc * Qc
}.

#[global] Instance Agent_eq_dec : EqDecision Agent.
Proof. solve_decision. Defined.
#[global] Instance Passenger_eq_dec : EqDecision Passenger.
Proof. solve_decision. Defined.
#[global] Instance Cell_eq_dec : EqDecision Cell.
Proof. solve_decision. Defined.
#[global] Instance AugmentedTaxiState_eq_dec : EqDecision AugmentedTaxiState.
Proof. solve_decision. Defined.

(** Static constants of the class. *)
Definition BASE_ACTIONS : list string :=
  ["up"; "down"; "left"; "right"; "pickup"; "dropoff"].
Definition AUGMENTED_ACTIONS : list string :=
  ["up"; "down"; "left"; "right"; "pickup"; "dropoff"; "refuel"].

(** ** Attribute updates *)

Definition set_agent (a : Agent) (s : AugmentedTaxiState) : AugmentedTaxiState :=
  mkState a (passengers s) (hotswap_stations s) (is_terminal s) (is_goal s).
Definition set_passengers (ps : list Passenger) (s : AugmentedTaxiState) : AugmentedTaxiState :=
  mkState (agent s) ps (hotswap_stations s) (is_terminal s) (is_goal s).
Definition set_hotswap_stations (hs : list Cell) (s : AugmentedTaxiState) : AugmentedTaxiState :=
  mkState (agent s) (passengers s) hs (is_terminal s) (is_goal s).
Definition set_terminal_val (b : bool) (s : AugmentedTaxiState) : AugmentedTaxiState :=
  mkState (agent s) (passengers s) (hotswap_stations s) b (is_goal s).
Definition set_goal_val (b : bool) (s : AugmentedTaxiState) : AugmentedTaxiState :=
  mkState (agent s) (passengers s) (hotswap_stations s) (is_terminal s) b.

Definition set_has_passenger (v : Z) (a : Agent) : Agent :=
  mkAgent (ag_x a) (ag_y a) v (ag_fuel a).
Definition set_fuel (f : option Z) (a : Agent) : Agent :=
  mkAgent (ag_x a) (ag_y a) (ag_has_passenger a) f.
Definition translate_agent (dx dy : Z) (a : Agent) : Agent :=
  mkAgent (ag_x a + dx) (ag_y a + dy) (ag_has_passenger a) (ag_fuel a).
Definition set_in_taxi (v : Z) (p : Passenger) : Passenger :=
  mkPassenger (p_x p) (p_y p) (p_dest_x p) (p_dest_y p) v.
Definition translate_passenger (dx dy : Z) (p : Passenger) : Passenger :=
  mkPassenger (p_x p + dx) (p_y p + dy) (p_dest_x p) (p_dest_y p) (p_in_taxi p).

(** [state.get_agent_x()], [state.get_agent_y()]. *)
Definition get_agent_x (s : AugmentedTaxiState) : Z := ag_x (agent s).
Definition get_agent_y (s : AugmentedTaxiState) : Z := ag_y (agent s).

(** ** The store and the monad of the interpreter *)

Definition loc := nat.

(** The store of state objects, and the number of draws made so far. *)
Record World := mkWorld {
  heap : list AugmentedTaxiState;
  rng : nat
}.

(** [BadRef] has no Python counterpart: it is the result of following an
    address that was never allocated, which no call below does when it is
    given a live address. *)
Inductive exn := ValueError | IndexError | AttributeError | BadRef.

(** What a caller can pass where a state is expected: a reference to an
    [AugmentedTaxiState], or an object of another class.  Of the latter the
    engine only ever asks for its [track_fuel] method: either the object
    has none, or the method answers a truth value. *)
Inductive pyarg :=
| StateArg (l : loc)
| OtherArg (track_fuel_method : option bool).

#[global] Instance exn_eq_dec : EqDecision exn.
Proof. solve_decision. Defined.

(** A computation runs on a world and ends in a world together with either
    the exception it raised or its value.  The world of a raised exception
    is the world at the moment of the [raise]. *)
Definition M (A : Type) : Type := World → World * (exn + A).

#[global] Instance M_ret : MRet M := λ A a w, (w, inr a).
#[global] Instance M_bind : MBind M := λ A B f m w,
  match m w with
  | (w', inr a) => f a w'
  | (w', inl e) => (w', inl e)
  end.

Definition raise {A} (e : exn) : M A := λ w, (w, inl e).

(** Read the object behind a reference. *)
Definition get (l : loc) : M AugmentedTaxiState := λ w,
  match heap w !! l with
  | Some s => (w, inr s)
  | None => (w, inl BadRef)
  end.

(** Update the object behind a reference in place. *)
Definition modify (l : loc) (f : AugmentedTaxiState → AugmentedTaxiState) : M unit := λ w,
  match heap w !! l with
  | Some s => (mkWorld (<[l := f s]> (heap w)) (rng w), inr ())
  | None => (w, inl BadRef)
  end.

(** [copy.deepcopy(state)]: a new object with the same contents. *)
Definition deepcopy (l : loc) : M loc := λ w,
  match heap w !! l with
  | Some s => (mkWorld (heap w ++ [s]) (rng w), inr (length (heap w)))
  | None => (w, inl BadRef)
  end.

(** [random.random()] against a stream of draws. *)
Definition random (draws : nat → Qc) : M Qc := λ w,
  (mkWorld (heap w) (S (rng w)), inr (draws (rng w))).

(** Setters of the state class. *)
Definition set_terminal (l : loc) (b : bool) : M unit := modify l (set_terminal_val b).
Definition set_goal (l : loc) (b : bool) : M unit := modify l (set_goal_val b).

(** [state.update()] recomputes the flattened attribute tuple [self.data]
    from [self.objects]; the embedding has no copy of that derived view, so
    the call leaves every field above as it is. *)
Definition update (l : loc) : M unit := modify l (λ s, s).

(** ** World-query helpers (module [taxi_helpers]) and state-class methods *)

(** Modelled from the spec: [AugmentedTaxiState.track_fuel] is not among the
    sources.  Fuel is an optional attribute of the agent; fuel is tracked
    when the attribute is present. *)
Definition track_fuel (s : AugmentedTaxiState) : bool :=
  match ag_fuel (agent s) with Some _ => true | None => false end.

(** Modelled from the spec: [taxi_helpers.is_taxi_goal_state] is not among
    the sources.  A state is a goal state iff every passenger satisfies
    (x,y) == (dest_x,dest_y) and in_taxi == 0. *)
Definition delivered (p : Passenger) : bool :=
  (p_x p =? p_dest_x p)%Z && (p_y p =? p_dest_y p)%Z && (p_in_taxi p =? 0)%Z.
(** Modelled from the spec: the goal check over every passenger of the
    state. *)
Definition is_taxi_goal_state (s : AugmentedTaxiState) : bool :=
  forallb delivered (passengers s).

(** Modelled from the spec: [taxi_helpers.at_traffic] is not among the
    sources.  traffic-at(x,y) gives whether the cell has a traffic entry,
    and its probability. *)
Fixpoint at_traffic_in (cs : list TrafficCell) (x y : Z) : bool * Qc :=
  match cs with
  | [] => (false, 0%Qc)
  | c :: cs' =>
      if (t_x c =? x)%Z && (t_y c =? y)%Z then (true, t_prob c)
      else at_traffic_in cs' x y
  end.
(** Modelled from the spec: traffic-at(x,y) over the traffic cells of the
    MDP. *)
Definition at_traffic (mdp : AugmentedTaxi2OOMDP) (x y : Z) : bool * Qc :=
  at_traffic_in (traffic_cells mdp) x y.

(** Modelled from the spec: [taxi_helpers.at_fuel_station] is not among the
    sources.  fuel-station-at(x,y) gives whether the cell is a fuel station,
    and its capacity. *)
Fixpoint at_fuel_station_in (fs : list FuelStation) (x y : Z) : bool * Z :=
  match fs with
  | [] => (false, 0%Z)
  | f :: fs' =>
      if (f_x f =? x)%Z && (f_y f =? y)%Z then (true, f_max_fuel_capacity f)
      else at_fuel_station_in fs' x y
  end.
(** Modelled from the spec: fuel-station-at(x,y) over the fuel stations of
    the MDP. *)
Definition at_fuel_station (mdp : AugmentedTaxi2OOMDP) (x y : Z) : bool * Z :=
  at_fuel_station_in (fuel_stations mdp) x y.

(** The agent of [s] stands on cell [c]. *)
Definition on_cell (c : Cell) (s : AugmentedTaxiState) : bool :=
  (c_x c =? get_agent_x s)%Z && (c_y c =? get_agent_y s)%Z.

(** Modelled from the spec: [taxi_helpers._is_wall_in_the_way] is not among
    the sources.  The walls are cells that block movement; the move is
    blocked when the destination cell of the translation is a wall. *)
Definition _is_wall_in_the_way (mdp : AugmentedTaxi2OOMDP)
    (s : AugmentedTaxiState) (dx dy : Z) : bool :=
  existsb (λ w, (c_x w =? get_agent_x s + dx)%Z && (c_y w =? get_agent_y s + dy)%Z)
          (walls mdp).

(** The agent was on cell [c] in [s] and is not on it in [s']. *)
Definition moved_off (c : Cell) (s s' : AugmentedTaxiState) : bool :=
  on_cell c s && negb (on_cell c s').

(** Modelled from the spec: [taxi_helpers._moved_off_of_toll] is not among
    the sources.  True iff the agent occupied a toll cell in [state] and is
    no longer on that cell in [next_state]. *)
Definition _moved_off_of_toll (mdp : AugmentedTaxi2OOMDP)
    (s s' : AugmentedTaxiState) : bool :=
  existsb (λ c, moved_off c s s') (tolls mdp).

(** Modelled from the spec: [taxi_helpers._moved_off_of_hotswap_station] is
    not among the sources.  The stations of [state] are scanned in list
    order; the first one the agent was on in [state] and is no longer on in
    [next_state] is reported.  [Some i] stands for the pair (True, i) and
    [None] for (False, None). *)
Fixpoint moved_off_scan (hs : list Cell) (i : nat)
    (s s' : AugmentedTaxiState) : option nat :=
  match hs with
  | [] => None
  | c :: hs' => if moved_off c s s' then Some i else moved_off_scan hs' (S i) s s'
  end.
(** Modelled from the spec: the scan over the stations of [state], counted
    from index 0. *)
Definition _moved_off_of_hotswap_station (s s' : AugmentedTaxiState) : option nat :=
  moved_off_scan (hotswap_stations s) 0 s s'.

(** Modelled from the spec: [taxi_helpers._move_pass_in_taxi] is not among
    the sources.  A passenger with in_taxi == 1 is translated together with
    the taxi; the update is made in place on the given state. *)
Definition move_pass (dx dy : Z) (p : Passenger) : Passenger :=
  if bool_decide (p_in_taxi p = 1%Z) then translate_passenger dx dy p else p.
(** Modelled from the spec: the in-place update of the passengers of the
    state behind [l]. *)
Definition _move_pass_in_taxi (l : loc) (dx dy : Z) : M unit :=
  modify l (λ s, set_passengers (map (move_pass dx dy) (passengers s)) s).

(** [del lst[i]] raises IndexError out of range. *)
Definition del_at {A} (i : nat) (l : list A) : exn + list A :=
  if bool_decide (i < length l) then inr (delete i l) else inl IndexError.

(** The loop of [agent_pickup] over the passengers of the copy: every
    passenger at the agent's position gets in_taxi = 1 and the agent gets
    has_passenger = 1. *)
Fixpoint pickup_loop (a : Agent) (ps : list Passenger) : Agent * list Passenger :=
  match ps with
  | [] => (a, [])
  | p :: ps' =>
      if bool_decide (ag_x a = p_x p) && bool_decide (ag_y a = p_y p) then
        let '(a', qs) := pickup_loop (set_has_passenger 1 a) ps' in
        (a', set_in_taxi 1 p :: qs)
      else
        let '(a', qs) := pickup_loop a ps' in (a', p :: qs)
  end.

(** The loop of [agent_dropoff]: every passenger with in_taxi == 1 gets
    in_taxi = 0, and then the agent gets has_passenger = 0. *)
Fixpoint dropoff_loop (a : Agent) (ps : list Passenger) : Agent * list Passenger :=
  match ps with
  | [] => (a, [])
  | p :: ps' =>
      if bool_decide (p_in_taxi p = 1%Z) then
        let '(a', qs) := dropoff_loop (set_has_passenger 0 a) ps' in
        (a', set_in_taxi 0 p :: qs)
      else
        let '(a', qs) := dropoff_loop a ps' in (a', p :: qs)
  end.

Definition store_loop (r : Agent * list Passenger) (s : AugmentedTaxiState) :
    AugmentedTaxiState :=
  set_passengers (snd r) (set_agent (fst r) s).

(** [weights.dot(features.T)] for a 1x3 weight row and a 1x3 feature row. *)
Definition Z2Qc (z : Z) : Qc := Q2Qc (inject_Z z).
Definition dot (w : Qc * Qc * Qc) (f : Z * Z * Z) : Qc :=
  let '(w1, w2, w3) := w in
  let '(f1, f2, f3) := f in
  (w1 * Z2Qc f1 + w2 * Z2Qc f2 + w3 * Z2Qc f3)%Qc.

(** ** Construction ([__init__], [_create_state]) *)

(** [_create_state]: the agent, the passengers and the hotswap stations go
    into the object table of a new state.  Modelled from the spec: the
    constructor of the state class is not among the sources; a new state
    has is_terminal and is_goal false. *)
Definition _create_state (agent_oo_obj : Agent) (passengers : list Passenger)
    (hotswap_stations : list Cell) : AugmentedTaxiState :=
  mkState agent_oo_obj passengers hotswap_stations false false.

(** What [__init__] leaves behind: the fields of [self] read by the engine,
    the initial state and the action list handed to the base class, the
    discount factor, and the capability row [self.reward_features]. *)
Record OOMDP_instance := mkInstance {
  inst_mdp : AugmentedTaxi2OOMDP;
  inst_init_state : AugmentedTaxiState;
  inst_actions : list string;
  inst_gamma : Qc;
  inst_reward_features : bool * bool * bool
}.

(** The weights used when none are given. *)
Definition default_weights : Qc * Qc * Qc :=
  (Q2Qc 2, Q2Qc (-4 # 10), Q2Qc (-5 # 10)).

Definition AugmentedTaxi2OOMDP_init (width height : Z) (agent : Agent)
    (walls : list Cell) (passengers : list Passenger) (tolls : list Cell)
    (traffic : list TrafficCell) (fuel_stations : list FuelStation)
    (hotswap_stations : list Cell) (slip_prob gamma : Qc)
    (weights : option (Qc * Qc * Qc)) : OOMDP_instance :=
  let weights := match weights with Some w => w | None => default_weights end in
  let reward_features :=
    (bool_decide (0 < length tolls), bool_decide (0 < length hotswap_stations), true) in
  let init_state := _create_state agent passengers hotswap_stations in
  mkInstance
    (mkMDP width height walls tolls traffic fuel_stations slip_prob weights)
    init_state
    (if track_fuel init_state then AUGMENTED_ACTIONS else BASE_ACTIONS)
    gamma
    reward_features.

(** The sum of two integer rows. *)
Definition zadd (a b : Z * Z * Z) : Z * Z * Z :=
  let '(a1, a2, a3) := a in
  let '(b1, b2, b3) := b in
  (a1 + b1, a2 + b2, a3 + b3)%Z.

(** ** Sample configurations

    A 3x3 grid with a toll at (2,1) and a fuel station at (1,1), no wall
    and no traffic, slip probability 0 and the default weights; a stream of
    draws that are all 1/2; and a few states on that grid. *)

Definition ex_mdp : AugmentedTaxi2OOMDP :=
  mkMDP 3 3 [] [mkCell 2 1] [] [mkFuelStation 1 1 10] 0%Qc
        (Q2Qc 2, Q2Qc (-4 # 10), Q2Qc (-5 # 10)).

Definition ex_draws : nat → Qc := λ _, Q2Qc (1 # 2).

(** The same grid with a traffic cell of probability 1 at (1,1). *)
Definition ex_jam : AugmentedTaxi2OOMDP :=
  mkMDP 3 3 [] [mkCell 2 1] [mkTraffic 1 1 1%Qc] [mkFuelStation 1 1 10] 0%Qc
        (Q2Qc 2, Q2Qc (-4 # 10), Q2Qc (-5 # 10)).

(** The agent on the top row, one passenger waiting elsewhere. *)
Definition ex_top : AugmentedTaxiState :=
  mkState (mkAgent 1 3 0 None) [mkPassenger 2 2 3 3 0] [] false false.

(** Fuel is tracked; a passenger waits at the agent's cell. *)
Definition ex_fuel : AugmentedTaxiState :=
  mkState (mkAgent 1 1 0 (Some 5%Z)) [mkPassenger 1 1 3 3 0] [] false false.

(** The flags are set although the passenger is not delivered. *)
Definition ex_flagged : AugmentedTaxiState :=
  mkState (mkAgent 1 1 0 None) [mkPassenger 2 2 3 3 0] [] true true.

(** The passenger is already at its destination; the flags are not set. *)
Definition ex_home : AugmentedTaxiState :=
  mkState (mkAgent 1 1 0 None) [mkPassenger 3 3 3 3 0] [] false false.

(** Two passengers wait at the agent's cell. *)
Definition ex_two : AugmentedTaxiState :=
  mkState (mkAgent 1 1 0 None)
          [mkPassenger 1 1 3 3 0; mkPassenger 1 1 2 2 0] [] false false.
Definition ex_two_picked : AugmentedTaxiState :=
  mkState (mkAgent 1 1 1 None)
          [mkPassenger 1 1 3 3 1; mkPassenger 1 1 2 2 1] [] false false.

(** has_passenger is 1 but no passenger has in_taxi == 1. *)
Definition ex_ghost : AugmentedTaxiState :=
  mkState (mkAgent 1 1 1 None) [mkPassenger 2 2 3 3 0] [] false false.

(** The taxi carries its passenger at the passenger's destination. *)
Definition ex_arrived : AugmentedTaxiState :=
  mkState (mkAgent 3 3 1 None) [mkPassenger 3 3 3 3 1] [] false false.
Definition ex_delivered : AugmentedTaxiState :=
  mkState (mkAgent 3 3 0 None) [mkPassenger 3 3 3 3 0] [] true true.

(** The start of the end-to-end run: agent and passenger at (1,1), the
    passenger bound for (3,3). *)
Definition ex_start : AugmentedTaxiState :=
  mkState (mkAgent 1 1 0 None) [mkPassenger 1 1 3 3 0] [] false false.

(** The agent stands on a hotswap station, next to the toll cell. *)
Definition ex_station : AugmentedTaxiState :=
  mkState (mkAgent 1 1 0 None) [mkPassenger 2 2 3 3 0]
          [mkCell 3 3; mkCell 1 1; mkCell 1 1] false false.
Definition ex_station_left : AugmentedTaxiState :=
  mkState (mkAgent 2 1 0 None) [mkPassenger 2 2 3 3 0]
          [mkCell 3 3; mkCell 1 1] false false.

(** The agent has stepped off the station at (1,1); no station has been
    taken away yet (the result of [move_agent] alone). *)
Definition ex_station_moved : AugmentedTaxiState :=
  mkState (mkAgent 2 1 0 None) [mkPassenger 2 2 3 3 0]
          [mkCell 3 3; mkCell 1 1; mkCell 1 1] false false.

(** A trajectory over the store that holds [ex_station] and
    [ex_station_left]: one step to the right and one back. *)
Definition ex_round_trip : list (loc * string * loc) :=
  [(0, "right", 1); (1, "left", 0)].

(** The sample grid as the constructor makes it. *)
Definition ex_instance : OOMDP_instance :=
  AugmentedTaxi2OOMDP_init 3 3 (mkAgent 1 1 0 None) [] [mkPassenger 2 2 3 3 0]
    [mkCell 2 1] [] [mkFuelStation 1 1 10] [mkCell 3 3; mkCell 1 1; mkCell 1 1]
    0%Qc (Q2Qc (99 # 100)) None.

Section Engine.

(** The MDP instance, the stream read by [random.random()], and the fixed
    amount by which [decrement_fuel] lowers the fuel. *)
Variable mdp : AugmentedTaxi2OOMDP.
Variable draws : nat → Qc.
Variable fuel_step : Z.

(** The float64 numbers of the discounted accumulation, with the four
    operations the loop performs on them: the conversion of an integer,
    the sum, the product, and the power with a whole exponent.  The
    operations are those of the machine: no law of arithmetic is built in,
    and a statement that relies on one names it among its premises. *)
Variable float64 : Type.
Variable of_int : Z → float64.
Variable fadd : float64 → float64 → float64.
Variable fmul : float64 → float64 → float64.
Variable fpow : float64 → nat → float64.

(** The discount factor [self.gamma]. *)
Variable gamma : float64.

(** Rows of three float64 numbers: sum, scaling by a number, and the
    conversion of an integer row. *)
Definition vadd (a b : float64 * float64 * float64) : float64 * float64 * float64 :=
  let '(a1, a2, a3) := a in
  let '(b1, b2, b3) := b in
  (fadd a1 b1, fadd a2 b2, fadd a3 b3).
Definition vscale (c : float64) (a : float64 * float64 * float64) :
    float64 * float64 * float64 :=
  let '(a1, a2, a3) := a in (fmul c a1, fmul c a2, fmul c a3).
Definition to_float (a : Z * Z * Z) : float64 * float64 * float64 :=
  let '(a1, a2, a3) := a in (of_int a1, of_int a2, of_int a3).

(** Modelled from the spec: [AugmentedTaxiState.decrement_fuel] is not among
    the sources.  The agent's fuel is lowered by the fixed per-step amount,
    in place. *)
Definition decrement_fuel_val (s : AugmentedTaxiState) : AugmentedTaxiState :=
  set_agent (set_fuel ((λ f, (f - fuel_step)%Z) <$> ag_fuel (agent s)) (agent s)) s.
(** Modelled from the spec: [state.decrement_fuel()], in place on the
    state behind [l]. *)
Definition decrement_fuel (l : loc) : M unit := modify l decrement_fuel_val.

(** *** Action implementations *)

Definition move_agent (state : loc) (dx dy : Z) : M loc :=
  s ← get state;
  if _is_wall_in_the_way mdp s dx dy then mret state
  else
    next_state ← deepcopy state;
    modify next_state (λ n, set_agent (translate_agent dx dy (agent n)) n);;
    _move_pass_in_taxi next_state dx dy;;
    mret next_state.

Definition agent_pickup (state : loc) : M loc :=
  next_state ← deepcopy state;
  n ← get next_state;
  (if bool_decide (ag_has_passenger (agent n) = 0%Z) then
     modify next_state (store_loop (pickup_loop (agent n) (passengers n)))
   else mret ());;
  mret next_state.

Definition agent_dropoff (state : loc) : M loc :=
  next_state ← deepcopy state;
  n ← get next_state;
  (if bool_decide (ag_has_passenger (agent n) = 1%Z) then
     modify next_state (store_loop (dropoff_loop (agent n) (passengers n)))
   else mret ());;
  mret next_state.

Definition agent_refuel (state : loc) : M loc :=
  next_state ← deepcopy state;
  s ← get state;
  let '(at_station, max_fuel_capacity) :=
    at_fuel_station mdp (get_agent_x s) (get_agent_y s) in
  (if at_station then
     modify next_state (λ n, set_agent (set_fuel (Some max_fuel_capacity) (agent n)) n)
   else mret ());;
  mret next_state.

(** *** Validation *)

(** [state.track_fuel()] on whatever was passed: looking up the method on
    an object that has none raises AttributeError. *)
Definition call_track_fuel (state : pyarg) : M bool :=
  match state with
  | StateArg l => s ← get l; mret (track_fuel s)
  | OtherArg (Some answer) => mret answer
  | OtherArg None => raise AttributeError
  end.

(** [isinstance(state, AugmentedTaxiState)]. *)
Definition isinstance_AugmentedTaxiState (state : pyarg) : bool :=
  match state with StateArg _ => true | OtherArg _ => false end.

Definition _error_check (state : pyarg) (action : string) : M unit :=
  tracks ← call_track_fuel state;
  (if tracks : bool then
     if bool_decide (action ∈ AUGMENTED_ACTIONS) then mret () else raise ValueError
   else
     if bool_decide (action ∈ BASE_ACTIONS) then mret () else raise ValueError);;
  if negb (isinstance_AugmentedTaxiState state) then raise ValueError else mret ().

(** *** Transition *)

(** Lines 187-196: the slip draw, then the traffic draw when the agent is on
    a traffic cell. *)
Definition draw_stuck (s : AugmentedTaxiState) : M bool :=
  u ← random draws;
  let stuck := bool_decide (u < slip_prob mdp)%Qc in
  let '(at_tr, prob_traffic) := at_traffic mdp (get_agent_x s) (get_agent_y s) in
  if at_tr then
    u' ← random draws;
    mret (if bool_decide (u' < prob_traffic)%Qc then true else stuck)
  else mret stuck.

(** Lines 202-218: the chain of [if]/[elif] on the action. *)
Definition dispatch (state : loc) (action : string) (stuck : bool) : M loc :=
  s ← get state;
  if bool_decide (action = "up") && bool_decide (get_agent_y s < height mdp)%Z && negb stuck then
    move_agent state 0 1
  else if bool_decide (action = "down") && bool_decide (get_agent_y s > 1)%Z && negb stuck then
    move_agent state 0 (-1)
  else if bool_decide (action = "right") && bool_decide (get_agent_x s < width mdp)%Z && negb stuck then
    move_agent state 1 0
  else if bool_decide (action = "left") && bool_decide (get_agent_x s > 1)%Z && negb stuck then
    move_agent state (-1) 0
  else if bool_decide (action = "dropoff") then agent_dropoff state
  else if bool_decide (action = "pickup") then agent_pickup state
  else if bool_decide (action = "refuel") then agent_refuel state
  else mret state.

(** Lines 220-225: delete the hotswap station the agent moved off of. *)
Definition remove_hotswap (state next_state : loc) : M unit :=
  s ← get state;
  n ← get next_state;
  match _moved_off_of_hotswap_station s n with
  | Some station_idx =>
      match del_at station_idx (hotswap_stations n) with
      | inr hs => modify next_state (set_hotswap_stations hs)
      | inl e => raise e
      end
  | None => mret ()
  end.

(** Lines 227-231: mark a goal state terminal. *)
Definition make_terminal (next_state : loc) : M unit :=
  n ← get next_state;
  if is_taxi_goal_state n then
    set_terminal next_state true;; set_goal next_state true
  else mret ().

(** Past [_error_check] the argument is a state; the last branch of the
    match is never reached. *)
Definition _taxi_transition_func (state : pyarg) (action : string) : M loc :=
  _error_check state action;;
  match state with
  | StateArg state =>
      s ← get state;
      if negb (is_taxi_goal_state s) then
        stuck ← draw_stuck s;
        (if track_fuel s then decrement_fuel state else mret ());;
        next_state ← dispatch state action stuck;
        remove_hotswap state next_state;;
        make_terminal next_state;;
        update next_state;;
        mret next_state
      else mret state
  | OtherArg _ => raise ValueError
  end.

(** A caller that feeds each returned state to the next call. *)
Fixpoint run_actions (actions : list string) (state : loc) : M loc :=
  match actions with
  | [] => mret state
  | action :: rest =>
      next_state ← _taxi_transition_func (StateArg state) action;
      run_actions rest next_state
  end.

(** *** Reward *)

Definition compute_reward_features (state : loc) (action : string) (next_state : loc) :
    M (Z * Z * Z) :=
  s ← get state;
  n ← get next_state;
  let toll_flag :=
    if bool_decide (length (tolls mdp) ≠ 0)
    then (if _moved_off_of_toll mdp s n then 1%Z else 0%Z) else 0%Z in
  let hotswap_flag :=
    if bool_decide (length (hotswap_stations s) ≠ 0)
    then (match _moved_off_of_hotswap_station s n with Some _ => 1%Z | None => 0%Z end)
    else 0%Z in
  let step_cost_flag := 1%Z in
  mret (toll_flag, hotswap_flag, step_cost_flag).

Definition _taxi_reward_func (state : pyarg) (action : string) (next_state : loc) : M Qc :=
  _error_check state action;;
  match state with
  | StateArg state =>
      f ← compute_reward_features state action next_state;
      mret (dot (weights mdp) f)
  | OtherArg _ => raise ValueError
  end.


(** ** What each call does to the store

    The value a fresh copy ends with, for each action implementation. *)

Definition moved_val (dx dy : Z) (s : AugmentedTaxiState) : AugmentedTaxiState :=
  set_passengers (map (move_pass dx dy) (passengers s))
                 (set_agent (translate_agent dx dy (agent s)) s).

Definition pickup_val (s : AugmentedTaxiState) : AugmentedTaxiState :=
  if bool_decide (ag_has_passenger (agent s) = 0%Z)
  then store_loop (pickup_loop (agent s) (passengers s)) s else s.

Definition dropoff_val (s : AugmentedTaxiState) : AugmentedTaxiState :=
  if bool_decide (ag_has_passenger (agent s) = 1%Z)
  then store_loop (dropoff_loop (agent s) (passengers s)) s else s.

Definition refuel_val (s : AugmentedTaxiState) : AugmentedTaxiState :=
  let '(at_station, cap) := at_fuel_station mdp (get_agent_x s) (get_agent_y s) in
  if at_station then set_agent (set_fuel (Some cap) (agent s)) s else s.

(** [None]: the call hands back the object it was given. *)
Definition move_val (dx dy : Z) (s : AugmentedTaxiState) : option AugmentedTaxiState :=
  if _is_wall_in_the_way mdp s dx dy then None else Some (moved_val dx dy s).

Definition dispatch_val (action : string) (stuck : bool) (s : AugmentedTaxiState) :
    option AugmentedTaxiState :=
  if bool_decide (action = "up") && bool_decide (get_agent_y s < height mdp)%Z && negb stuck then
    move_val 0 1 s
  else if bool_decide (action = "down") && bool_decide (get_agent_y s > 1)%Z && negb stuck then
    move_val 0 (-1) s
  else if bool_decide (action = "right") && bool_decide (get_agent_x s < width mdp)%Z && negb stuck then
    move_val 1 0 s
  else if bool_decide (action = "left") && bool_decide (get_agent_x s > 1)%Z && negb stuck then
    move_val (-1) 0 s
  else if bool_decide (action = "dropoff") then Some (dropoff_val s)
  else if bool_decide (action = "pickup") then Some (pickup_val s)
  else if bool_decide (action = "refuel") then Some (refuel_val s)
  else None.

(** The outcome of the draws at stream position [k], and how many were made. *)
Definition stuck_val (s : AugmentedTaxiState) (k : nat) : bool * nat :=
  let stuck := bool_decide (draws k < slip_prob mdp)%Qc in
  let '(at_tr, prob_traffic) := at_traffic mdp (get_agent_x s) (get_agent_y s) in
  if at_tr then (if bool_decide (draws (S k) < prob_traffic)%Qc then true else stuck, 2)
  else (stuck, 1).

Definition unhook_val (s n : AugmentedTaxiState) : AugmentedTaxiState :=
  match _moved_off_of_hotswap_station s n with
  | Some i => set_hotswap_stations (delete i (hotswap_stations n)) n
  | None => n
  end.

Definition terminal_val (n : AugmentedTaxiState) : AugmentedTaxiState :=
  if is_taxi_goal_state n then set_goal_val true (set_terminal_val true n) else n.

Definition fuel_val (s : AugmentedTaxiState) : AugmentedTaxiState :=
  if track_fuel s then decrement_fuel_val s else s.

(** The action set the validation uses for a state. *)
Definition active_actions (s : AugmentedTaxiState) : list string :=
  if track_fuel s then AUGMENTED_ACTIONS else BASE_ACTIONS.
Definition valid_action (s : AugmentedTaxiState) (action : string) : Prop :=
  action ∈ active_actions s.

(** A chain of calls, each made on the state the previous one returned. *)
Inductive trajectory : World → loc → World → loc → Prop :=
| traj_here w l : trajectory w l w l
| traj_step w l w1 l1 w2 l2 action :
    trajectory w l w1 l1 →
    _taxi_transition_func (StateArg l1) action w1 = (w2, inr l2) →
    trajectory w l w2 l2.

(** The worlds that calls on live states can produce from the world that
    holds only the initial state.  A call may be made on any state object
    created so far, and a call that raises is part of the history too. *)
Inductive reachable (init_state : AugmentedTaxiState) : World → Prop :=
| reach_init : reachable init_state (mkWorld [init_state] 0)
| reach_call w l action w' r :
    reachable init_state w →
    l < length (heap w) →
    _taxi_transition_func (StateArg l) action w = (w', r) →
    reachable init_state w'.

(** *** Trajectory features and environment measures *)

(** The loop of [accumulate_reward_features] with [discount] set: in
    float64 arithmetic, the integer features of each triple are converted
    and multiplied by gamma ** step, and the product is added to the row
    accumulated so far. *)
Fixpoint accumulate_discounted (trajectory : list (loc * string * loc)) (step : nat)
    (reward_features : float64 * float64 * float64) :
    M (float64 * float64 * float64) :=
  match trajectory with
  | [] => mret reward_features
  | (state, action, next_state) :: rest =>
      f ← compute_reward_features state action next_state;
      accumulate_discounted rest (S step)
        (vadd reward_features (vscale (fpow gamma step) (to_float f)))
  end.

(** The loop without discount, on integer rows. *)
Fixpoint accumulate_plain (trajectory : list (loc * string * loc))
    (reward_features : Z * Z * Z) : M (Z * Z * Z) :=
  match trajectory with
  | [] => mret reward_features
  | (state, action, next_state) :: rest =>
      f ← compute_reward_features state action next_state;
      accumulate_plain rest (zadd reward_features f)
  end.

(** [accumulate_reward_features]; the row starts as the integer row of
    zeros.  The embedding keeps the numbers of the numpy row, not its
    dtype: the integer row of the loop without discount is handed back
    converted, and the loop with discount starts from the converted zeros,
    as numpy converts an integer row when a float64 row is added to it. *)
Definition accumulate_reward_features (trajectory : list (loc * string * loc))
    (discount : bool) : M (float64 * float64 * float64) :=
  if discount then accumulate_discounted trajectory 0 (to_float (0, 0, 0)%Z)
  else f ← accumulate_plain trajectory (0, 0, 0)%Z; mret (to_float f).

(** [measure_env_complexity]: the tolls plus the hotswap stations of the
    given state, or of the initial state when none is given. *)
Definition measure_env_complexity (init_state : loc) (state : option loc) : M nat :=
  match state with
  | None =>
      s ← get init_state;
      mret (length (tolls mdp) + length (hotswap_stations s))
  | Some state =>
      s ← get state;
      mret (length (tolls mdp) + length (hotswap_stations s))
  end.

(** *** Vocabulary of the statements *)

(** A copy is appended to the store, or the input address is handed back. *)
Definition outcome (w : World) (l : loc) (r : option AugmentedTaxiState) :
    World * (exn + loc) :=
  match r with
  | None => (w, inr l)
  | Some n => (mkWorld (heap w ++ [n]) (rng w), inr (length (heap w)))
  end.

(** The state a step returns when it makes a copy: the dispatched copy,
    less the station the agent left, marked when it is a goal state. *)
Definition next_val (action : string) (k : nat) (s : AugmentedTaxiState) :
    option AugmentedTaxiState :=
  (λ n, terminal_val (unhook_val (fuel_val s) n))
    <$> dispatch_val action (fst (stuck_val s k)) (fuel_val s).

(** The translation a navigation action asks for. *)
Definition nav_delta (action : string) : option (Z * Z) :=
  if bool_decide (action = "up") then Some (0, 1)%Z
  else if bool_decide (action = "down") then Some (0, -1)%Z
  else if bool_decide (action = "right") then Some (1, 0)%Z
  else if bool_decide (action = "left") then Some (-1, 0)%Z
  else None.

Definition in_grid (x y : Z) : Prop :=
  (1 ≤ x ≤ width mdp ∧ 1 ≤ y ≤ height mdp)%Z.

Definition in_bounds (s : AugmentedTaxiState) : Prop :=
  in_grid (get_agent_x s) (get_agent_y s).

(** The flag only goes up on goal states. *)
Definition flagged_goal (s : AugmentedTaxiState) : Prop :=
  is_terminal s = true → is_taxi_goal_state s = true.

(** The tests of the two loops. *)
Definition colocated (a : Agent) (p : Passenger) : bool :=
  bool_decide (ag_x a = p_x p) && bool_decide (ag_y a = p_y p).

Definition riding (p : Passenger) : bool := bool_decide (p_in_taxi p = 1%Z).

(** The number of passengers with in_taxi == 1. *)
Definition in_taxi_count (s : AugmentedTaxiState) : nat :=
  length (filter (λ p, p_in_taxi p = 1%Z) (passengers s)).

(** has_passenger is 1 when some passenger has in_taxi == 1, else 0. *)
Definition passenger_inv (s : AugmentedTaxiState) : Prop :=
  ag_has_passenger (agent s) = if bool_decide (in_taxi_count s = 0) then 0%Z else 1%Z.

(** Every passenger marked as riding stands on the agent's cell. *)
Definition riders_aboard (s : AugmentedTaxiState) : Prop :=
  ∀ p, p ∈ passengers s → p_in_taxi p = 1%Z →
       p_x p = ag_x (agent s) ∧ p_y p = ag_y (agent s).

(** The feature row of a pair of states, as [compute_reward_features]
    builds it. *)
Definition features_val (s n : AugmentedTaxiState) : Z * Z * Z :=
  (if bool_decide (length (tolls mdp) ≠ 0)
   then (if _moved_off_of_toll mdp s n then 1%Z else 0%Z) else 0%Z,
   if bool_decide (length (hotswap_stations s) ≠ 0)
   then (match _moved_off_of_hotswap_station s n with Some _ => 1%Z | None => 0%Z end)
   else 0%Z,
   1%Z).

(** Every state named by a trajectory is in the store. *)
Definition live_trajectory (w : World) (trajectory : list (loc * string * loc)) : Prop :=
  Forall (λ sas, is_Some (heap w !! sas.1.1) ∧ is_Some (heap w !! sas.2)) trajectory.

(** The feature rows of the triples of a trajectory. *)
Definition traj_rows (h : list AugmentedTaxiState)
    (trajectory : list (loc * string * loc)) : list (Z * Z * Z) :=
  map (λ sas, match h !! sas.1.1, h !! sas.2 with
              | Some s, Some n => features_val s n
              | _, _ => (0, 0, 0)%Z
              end) trajectory.

(** The sum of integer rows. *)
Definition plain_sum (rows : list (Z * Z * Z)) : Z * Z * Z :=
  foldr zadd (0, 0, 0)%Z rows.

(** The row the discounted loop leaves when the triples have the given
    feature rows: the same float64 operations in the same order. *)
Fixpoint discounted_rows (rows : list (Z * Z * Z)) (step : nat)
    (acc : float64 * float64 * float64) : float64 * float64 * float64 :=
  match rows with
  | [] => acc
  | f :: rest =>
      discounted_rows rest (S step) (vadd acc (vscale (fpow gamma step) (to_float f)))
  end.

(** The three facts of float64 arithmetic that the statement about a
    discount factor of 1 relies on: 1.0 to a whole power is 1.0, 1.0 times
    a converted integer is that number, and the sum of two converted
    natural numbers is the converted sum as long as the sum stays within
    the bound (for IEEE doubles, 2^53). *)
Definition exact_on_integers (bound : Z) : Prop :=
  (∀ k, fpow (of_int 1) k = of_int 1) ∧
  (∀ z, fmul (of_int 1) (of_int z) = of_int z) ∧
  (∀ a b, (0 ≤ a)%Z → (0 ≤ b)%Z → (a + b ≤ bound)%Z →
          fadd (of_int a) (of_int b) = of_int (a + b)).

(** ** Running the primitives *)

Lemma bind_run {A B} (m : M A) (f : A → M B) w :
  (m ≫= f) w = match m w with (w', inr a) => f a w' | (w', inl e) => (w', inl e) end.
Proof. reflexivity. Qed.

Lemma get_run w l s : heap w !! l = Some s → get l w = (w, inr s).
Proof. intros H. unfold get. by rewrite H. Qed.

Lemma modify_run w l s f :
  heap w !! l = Some s →
  modify l f w = (mkWorld (<[l := f s]> (heap w)) (rng w), inr ()).
Proof. intros H. unfold modify. by rewrite H. Qed.

Lemma deepcopy_run w l s :
  heap w !! l = Some s →
  deepcopy l w = (mkWorld (heap w ++ [s]) (rng w), inr (length (heap w))).
Proof. intros H. unfold deepcopy. by rewrite H. Qed.

Lemma lookup_last (h : list AugmentedTaxiState) n : (h ++ [n]) !! length h = Some n.
Proof. by apply list_lookup_middle. Qed.

Lemma insert_last (h : list AugmentedTaxiState) n n' :
  <[length h := n']> (h ++ [n]) = h ++ [n'].
Proof.
  replace (length h) with (length h + 0) at 1 by lia.
  by rewrite insert_app_r.
Qed.

Lemma modify_last h k n f :
  modify (length h) f (mkWorld (h ++ [n]) k) = (mkWorld (h ++ [f n]) k, inr ()).
Proof.
  erewrite modify_run by apply lookup_last. simpl. by rewrite insert_last.
Qed.

Lemma get_last h k n :
  get (length h) (mkWorld (h ++ [n]) k) = (mkWorld (h ++ [n]) k, inr n).
Proof. apply get_run, lookup_last. Qed.

Lemma get_old h k n l s :
  h !! l = Some s → get l (mkWorld (h ++ [n]) k) = (mkWorld (h ++ [n]) k, inr s).
Proof.
  intros H. apply get_run. simpl. rewrite lookup_app_l; [done|].
  by eapply lookup_lt_Some.
Qed.

(** ** Running the action implementations *)

Lemma move_agent_run w l s dx dy :
  heap w !! l = Some s →
  move_agent l dx dy w = outcome w l (move_val dx dy s).
Proof.
  intros H. unfold move_agent, move_val.
  rewrite bind_run, (get_run _ _ _ H).
  destruct (_is_wall_in_the_way mdp s dx dy); [done|].
  rewrite bind_run, (deepcopy_run _ _ _ H).
  rewrite bind_run, modify_last.
  unfold _move_pass_in_taxi. rewrite bind_run, modify_last. done.
Qed.

Lemma agent_pickup_run w l s :
  heap w !! l = Some s →
  agent_pickup l w = outcome w l (Some (pickup_val s)).
Proof.
  intros H. unfold agent_pickup, pickup_val.
  rewrite bind_run, (deepcopy_run _ _ _ H).
  rewrite bind_run, get_last.
  rewrite bind_run.
  destruct (bool_decide (ag_has_passenger (agent s) = 0%Z)); [|done].
  by rewrite modify_last.
Qed.

Lemma agent_dropoff_run w l s :
  heap w !! l = Some s →
  agent_dropoff l w = outcome w l (Some (dropoff_val s)).
Proof.
  intros H. unfold agent_dropoff, dropoff_val.
  rewrite bind_run, (deepcopy_run _ _ _ H).
  rewrite bind_run, get_last.
  rewrite bind_run.
  destruct (bool_decide (ag_has_passenger (agent s) = 1%Z)); [|done].
  by rewrite modify_last.
Qed.

Lemma agent_refuel_run w l s :
  heap w !! l = Some s →
  agent_refuel l w = outcome w l (Some (refuel_val s)).
Proof.
  intros H. unfold agent_refuel, refuel_val.
  rewrite bind_run, (deepcopy_run _ _ _ H).
  rewrite bind_run, (get_old _ _ _ _ _ H).
  destruct (at_fuel_station mdp (get_agent_x s) (get_agent_y s)) as [[] cap];
    rewrite bind_run; [|done].
  by rewrite modify_last.
Qed.

Lemma dispatch_run w l s action stuck :
  heap w !! l = Some s →
  dispatch l action stuck w = outcome w l (dispatch_val action stuck s).
Proof.
  intros H. unfold dispatch, dispatch_val.
  rewrite bind_run, (get_run _ _ _ H).
  repeat (match goal with |- context [if ?b then _ else _] => destruct b end;
          first [ by apply move_agent_run | by apply agent_dropoff_run
                | by apply agent_pickup_run | by apply agent_refuel_run | idtac ]).
  done.
Qed.


(** ** Running the transition function *)

Lemma error_check_ok w l s action :
  heap w !! l = Some s → valid_action s action →
  _error_check (StateArg l) action w = (w, inr ()).
Proof.
  intros H Hv. unfold _error_check, call_track_fuel, valid_action, active_actions in *.
  rewrite !bind_run, (get_run _ _ _ H). simpl.
  destruct (track_fuel s); by rewrite bool_decide_eq_true_2.
Qed.

Lemma error_check_bad w l s action :
  heap w !! l = Some s → ¬ valid_action s action →
  _error_check (StateArg l) action w = (w, inl ValueError).
Proof.
  intros H Hv. unfold _error_check, call_track_fuel, valid_action, active_actions in *.
  rewrite !bind_run, (get_run _ _ _ H). simpl.
  destruct (track_fuel s); by rewrite bool_decide_eq_false_2.
Qed.

Lemma draw_stuck_run w s :
  draw_stuck s w =
    (mkWorld (heap w) (rng w + snd (stuck_val s (rng w))), inr (fst (stuck_val s (rng w)))).
Proof.
  unfold draw_stuck, stuck_val. rewrite bind_run. unfold random at 1. simpl.
  destruct (at_traffic mdp (get_agent_x s) (get_agent_y s)) as [[] p]; simpl.
  - rewrite bind_run. unfold random. simpl.
    replace (rng w + 2) with (S (S (rng w))) by lia. done.
  - replace (rng w + 1) with (S (rng w)) by lia. done.
Qed.

Lemma update_run w l s : heap w !! l = Some s → update l w = (w, inr ()).
Proof.
  intros H. unfold update. rewrite (modify_run _ _ _ _ H).
  rewrite list_insert_id by done. by destruct w.
Qed.

(** The scan only looks at where the agent is. *)
Lemma moved_off_same_place c s n :
  get_agent_x n = get_agent_x s → get_agent_y n = get_agent_y s →
  moved_off c s n = false.
Proof.
  intros Hx Hy. unfold moved_off, on_cell. rewrite Hx, Hy.
  apply andb_negb_r.
Qed.

Lemma moved_off_scan_same_place hs i s n :
  get_agent_x n = get_agent_x s → get_agent_y n = get_agent_y s →
  moved_off_scan hs i s n = None.
Proof.
  intros Hx Hy. revert i. induction hs as [|c hs IH]; intros i; simpl; [done|].
  by rewrite moved_off_same_place.
Qed.

Lemma moved_off_scan_bound hs i s n j :
  moved_off_scan hs i s n = Some j → i ≤ j < i + length hs.
Proof.
  revert i. induction hs as [|c hs IH]; intros i; simpl; [done|].
  destruct (moved_off c s n).
  - intros [= <-]. lia.
  - intros H. apply IH in H. lia.
Qed.

(** What the scan finds: the first station the agent left. *)
Lemma moved_off_scan_Some hs i s n j :
  moved_off_scan hs i s n = Some j ↔
  ∃ c, hs !! (j - i) = Some c ∧ i ≤ j ∧ moved_off c s n = true ∧
       ∀ k c', k < j - i → hs !! k = Some c' → moved_off c' s n = false.
Proof.
  revert i. induction hs as [|c hs IH]; intros i; simpl.
  - split; [done|]. by intros (c & H & _).
  - destruct (moved_off c s n) eqn:Hc.
    + split.
      * intros [= <-]. exists c. replace (i - i) with 0 by lia.
        repeat split; [lia|done|]. intros k c' Hk. lia.
      * intros (c0 & Hl & Hij & Hm & Hfirst).
        destruct (j - i) as [|d] eqn:Hd; [f_equal; lia|].
        specialize (Hfirst 0 c). simpl in Hfirst.
        rewrite Hfirst in Hc; [done|lia|done].
    + rewrite IH. split.
      * intros (c0 & Hl & Hij & Hm & Hfirst). exists c0.
        replace (j - i) with (S (j - S i)) by lia. simpl.
        repeat split; [done|lia|done|].
        intros [|k] c' Hk; simpl.
        -- by intros [= <-].
        -- intros Hk'. eapply Hfirst; [|done]. lia.
      * intros (c0 & Hl & Hij & Hm & Hfirst).
        destruct (j - i) as [|d] eqn:Hd; simpl in Hl.
        { injection Hl as ->. by rewrite Hm in Hc. }
        exists c0. replace (j - S i) with d by lia.
        repeat split; [done|lia|done|].
        intros k c' Hk Hl'. apply (Hfirst (S k) c'); [lia|done].
Qed.

Lemma moved_off_scan_None hs i s n :
  moved_off_scan hs i s n = None ↔ ∀ c, c ∈ hs → moved_off c s n = false.
Proof.
  revert i. induction hs as [|c hs IH]; intros i; simpl.
  - split; [|done]. intros _ c Hc. by apply elem_of_nil in Hc.
  - destruct (moved_off c s n) eqn:Hc.
    + split; [done|]. intros H. rewrite H in Hc; [done|]. apply list_elem_of_here.
    + rewrite IH. split.
      * intros H c' [->|Hin]%elem_of_cons; auto.
      * intros H c' Hin. apply H. by apply list_elem_of_further.
Qed.

Lemma remove_hotswap_alias w l s :
  heap w !! l = Some s → remove_hotswap l l w = (w, inr ()).
Proof.
  intros H. unfold remove_hotswap.
  rewrite bind_run, (get_run _ _ _ H), bind_run, (get_run _ _ _ H).
  unfold _moved_off_of_hotswap_station.
  by rewrite moved_off_scan_same_place.
Qed.

Lemma remove_hotswap_fresh h k l s n :
  h !! l = Some s →
  hotswap_stations n = hotswap_stations s →
  remove_hotswap l (length h) (mkWorld (h ++ [n]) k) =
    (mkWorld (h ++ [unhook_val s n]) k, inr ()).
Proof.
  intros H Hhs. unfold remove_hotswap, unhook_val.
  rewrite bind_run, (get_old _ _ _ _ _ H), bind_run, get_last.
  destruct (_moved_off_of_hotswap_station s n) as [i|] eqn:Hi; [|done].
  unfold _moved_off_of_hotswap_station in Hi.
  apply moved_off_scan_bound in Hi. unfold del_at.
  rewrite bool_decide_eq_true_2 by (rewrite Hhs; lia).
  apply modify_last.
Qed.

Lemma make_terminal_alias w l s :
  heap w !! l = Some s → is_taxi_goal_state s = false →
  make_terminal l w = (w, inr ()).
Proof.
  intros H Hg. unfold make_terminal.
  by rewrite bind_run, (get_run _ _ _ H), Hg.
Qed.

Lemma make_terminal_fresh h k n :
  make_terminal (length h) (mkWorld (h ++ [n]) k) =
    (mkWorld (h ++ [terminal_val n]) k, inr ()).
Proof.
  unfold make_terminal, terminal_val.
  rewrite bind_run, get_last.
  destruct (is_taxi_goal_state n); [|done].
  unfold set_terminal, set_goal.
  rewrite bind_run, modify_last. apply modify_last.
Qed.

(** Lowering the fuel touches nothing but the fuel. *)
Lemma fuel_val_passengers s : passengers (fuel_val s) = passengers s.
Proof. unfold fuel_val. by destruct (track_fuel s). Qed.
Lemma fuel_val_hotswap s : hotswap_stations (fuel_val s) = hotswap_stations s.
Proof. unfold fuel_val. by destruct (track_fuel s). Qed.
Lemma fuel_val_terminal s : is_terminal (fuel_val s) = is_terminal s.
Proof. unfold fuel_val. by destruct (track_fuel s). Qed.
Lemma fuel_val_goal_flag s : is_goal (fuel_val s) = is_goal s.
Proof. unfold fuel_val. by destruct (track_fuel s). Qed.
Lemma fuel_val_x s : get_agent_x (fuel_val s) = get_agent_x s.
Proof. unfold fuel_val. by destruct (track_fuel s). Qed.
Lemma fuel_val_y s : get_agent_y (fuel_val s) = get_agent_y s.
Proof. unfold fuel_val. by destruct (track_fuel s). Qed.
Lemma fuel_val_has_passenger s :
  ag_has_passenger (agent (fuel_val s)) = ag_has_passenger (agent s).
Proof. unfold fuel_val. by destruct (track_fuel s). Qed.
Lemma fuel_val_is_goal s : is_taxi_goal_state (fuel_val s) = is_taxi_goal_state s.
Proof. unfold is_taxi_goal_state. by rewrite fuel_val_passengers. Qed.
Lemma fuel_val_untracked s : track_fuel s = false → fuel_val s = s.
Proof. unfold fuel_val. by intros ->. Qed.

Lemma pickup_loop_fst_xy ps a :
  ag_x (fst (pickup_loop a ps)) = ag_x a ∧ ag_y (fst (pickup_loop a ps)) = ag_y a ∧
  ag_fuel (fst (pickup_loop a ps)) = ag_fuel a.
Proof.
  revert a. induction ps as [|p ps IH]; intros a; simpl; [done|].
  destruct (_ && _).
  - specialize (IH (set_has_passenger 1 a)).
    destruct (pickup_loop (set_has_passenger 1 a) ps). simpl in *. done.
  - specialize (IH a). destruct (pickup_loop a ps). simpl in *. done.
Qed.

Lemma dropoff_loop_fst_xy ps a :
  ag_x (fst (dropoff_loop a ps)) = ag_x a ∧ ag_y (fst (dropoff_loop a ps)) = ag_y a ∧
  ag_fuel (fst (dropoff_loop a ps)) = ag_fuel a.
Proof.
  revert a. induction ps as [|p ps IH]; intros a; simpl; [done|].
  destruct (bool_decide _).
  - specialize (IH (set_has_passenger 0 a)).
    destruct (dropoff_loop (set_has_passenger 0 a) ps). simpl in *. done.
  - specialize (IH a). destruct (dropoff_loop a ps). simpl in *. done.
Qed.

(** No action implementation touches the hotswap stations or the flags. *)
Lemma dispatch_val_frame action stuck s n :
  dispatch_val action stuck s = Some n →
  hotswap_stations n = hotswap_stations s ∧
  is_terminal n = is_terminal s ∧ is_goal n = is_goal s.
Proof.
  unfold dispatch_val, move_val, dropoff_val, pickup_val, refuel_val.
  destruct (at_fuel_station mdp (get_agent_x s) (get_agent_y s)) as [[] cap];
  repeat (match goal with |- context [if ?b then _ else _] => destruct b end);
    intros [= <-]; done.
Qed.

(** The three ways a call ends: a configuration error, the identity on a
    goal state, and a step. *)
Lemma transition_invalid w l s action :
  heap w !! l = Some s → ¬ valid_action s action →
  _taxi_transition_func (StateArg l) action w = (w, inl ValueError).
Proof.
  intros H Hv. unfold _taxi_transition_func.
  by rewrite bind_run, (error_check_bad _ _ _ _ H Hv).
Qed.

Lemma transition_goal w l s action :
  heap w !! l = Some s → valid_action s action →
  is_taxi_goal_state s = true →
  _taxi_transition_func (StateArg l) action w = (w, inr l).
Proof.
  intros H Hv Hg. unfold _taxi_transition_func.
  rewrite bind_run, (error_check_ok _ _ _ _ H Hv).
  by rewrite bind_run, (get_run _ _ _ H), Hg.
Qed.

Lemma transition_step w l s action :
  heap w !! l = Some s → valid_action s action →
  is_taxi_goal_state s = false →
  _taxi_transition_func (StateArg l) action w =
    outcome (mkWorld (<[l := fuel_val s]> (heap w))
                     (rng w + snd (stuck_val s (rng w))))
            l (next_val action (rng w) s).
Proof.
  intros H Hv Hg. unfold _taxi_transition_func.
  rewrite bind_run, (error_check_ok _ _ _ _ H Hv).
  rewrite bind_run, (get_run _ _ _ H), Hg. unfold negb.
  rewrite bind_run, draw_stuck_run.
  set (k := rng w + snd (stuck_val s (rng w))).
  set (stuck := fst (stuck_val s (rng w))).
  assert (Hl : l < length (heap w)) by by eapply lookup_lt_Some.
  (* fuel *)
  rewrite bind_run.
  assert (Hfuel : (if track_fuel s then decrement_fuel l else mret ())
                    (mkWorld (heap w) k)
                  = (mkWorld (<[l := fuel_val s]> (heap w)) k, inr ())).
  { unfold fuel_val. destruct (track_fuel s).
    - unfold decrement_fuel. by erewrite modify_run by done.
    - by rewrite list_insert_id. }
  rewrite Hfuel. clear Hfuel.
  set (h1 := <[l := fuel_val s]> (heap w)).
  assert (H1 : h1 !! l = Some (fuel_val s)) by by apply list_lookup_insert_eq.
  rewrite bind_run, (dispatch_run (mkWorld h1 k) l (fuel_val s)) by done.
  unfold next_val. fold stuck.
  destruct (dispatch_val action stuck (fuel_val s)) as [n|] eqn:Hd; simpl.
  - apply dispatch_val_frame in Hd as (Hhs & _).
    rewrite bind_run, (remove_hotswap_fresh _ _ _ _ _ H1 Hhs).
    rewrite bind_run, make_terminal_fresh.
    rewrite bind_run.
    erewrite update_run by apply lookup_last. done.
  - rewrite bind_run, (remove_hotswap_alias (mkWorld h1 k) l (fuel_val s)) by done.
    rewrite bind_run, (make_terminal_alias (mkWorld h1 k) l (fuel_val s))
      by (done || by rewrite fuel_val_is_goal).
    rewrite bind_run, (update_run (mkWorld h1 k) l (fuel_val s)) by done.
    done.
Qed.


(** ** The dispatch, action by action *)

Ltac case_action a :=
  destruct (decide (a = "up")) as [->|?];
  [|destruct (decide (a = "down")) as [->|?];
    [|destruct (decide (a = "right")) as [->|?];
      [|destruct (decide (a = "left")) as [->|?];
        [|destruct (decide (a = "dropoff")) as [->|?];
          [|destruct (decide (a = "pickup")) as [->|?];
            [|destruct (decide (a = "refuel")) as [->|?]]]]]]].

Ltac simpl_action :=
  repeat first
    [ rewrite (bool_decide_eq_true_2 (_ = _)) by done
    | rewrite (bool_decide_eq_false_2 (_ = _)) by done ];
  rewrite ?andb_true_l, ?andb_false_l.

Lemma dispatch_val_up b s :
  dispatch_val "up" b s =
    if bool_decide (get_agent_y s < height mdp)%Z && negb b then move_val 0 1 s else None.
Proof. unfold dispatch_val. simpl_action. by destruct (_ && _). Qed.

Lemma dispatch_val_down b s :
  dispatch_val "down" b s =
    if bool_decide (get_agent_y s > 1)%Z && negb b then move_val 0 (-1) s else None.
Proof. unfold dispatch_val. simpl_action. by destruct (_ && _). Qed.

Lemma dispatch_val_right b s :
  dispatch_val "right" b s =
    if bool_decide (get_agent_x s < width mdp)%Z && negb b then move_val 1 0 s else None.
Proof. unfold dispatch_val. simpl_action. by destruct (_ && _). Qed.

Lemma dispatch_val_left b s :
  dispatch_val "left" b s =
    if bool_decide (get_agent_x s > 1)%Z && negb b then move_val (-1) 0 s else None.
Proof. unfold dispatch_val. simpl_action. by destruct (_ && _). Qed.

Lemma dispatch_val_dropoff b s : dispatch_val "dropoff" b s = Some (dropoff_val s).
Proof. unfold dispatch_val. by simpl_action. Qed.

Lemma dispatch_val_pickup b s : dispatch_val "pickup" b s = Some (pickup_val s).
Proof. unfold dispatch_val. by simpl_action. Qed.

Lemma dispatch_val_refuel b s : dispatch_val "refuel" b s = Some (refuel_val s).
Proof. unfold dispatch_val. by simpl_action. Qed.

Lemma dispatch_val_other action b s :
  action ∉ AUGMENTED_ACTIONS → dispatch_val action b s = None.
Proof.
  intros Hn. unfold dispatch_val.
  assert (action ≠ "up" ∧ action ≠ "down" ∧ action ≠ "left" ∧ action ≠ "right" ∧
          action ≠ "pickup" ∧ action ≠ "dropoff" ∧ action ≠ "refuel") as (?&?&?&?&?&?&?).
  { unfold AUGMENTED_ACTIONS in Hn. repeat split; intros ->; apply Hn; repeat constructor. }
  by simpl_action.
Qed.

Create Rewrite HintDb dispatch.
Hint Rewrite dispatch_val_up dispatch_val_down dispatch_val_right dispatch_val_left
  dispatch_val_dropoff dispatch_val_pickup dispatch_val_refuel : dispatch.

(** Where the agent of a dispatched copy stands. *)
Lemma pickup_val_agent_xy s :
  get_agent_x (pickup_val s) = get_agent_x s ∧ get_agent_y (pickup_val s) = get_agent_y s.
Proof.
  unfold pickup_val. destruct (bool_decide _); [|done].
  unfold get_agent_x, get_agent_y. simpl.
  by destruct (pickup_loop_fst_xy (passengers s) (agent s)) as (-> & -> & _).
Qed.

Lemma dropoff_val_agent_xy s :
  get_agent_x (dropoff_val s) = get_agent_x s ∧ get_agent_y (dropoff_val s) = get_agent_y s.
Proof.
  unfold dropoff_val. destruct (bool_decide _); [|done].
  unfold get_agent_x, get_agent_y. simpl.
  by destruct (dropoff_loop_fst_xy (passengers s) (agent s)) as (-> & -> & _).
Qed.

Lemma refuel_val_agent_xy s :
  get_agent_x (refuel_val s) = get_agent_x s ∧ get_agent_y (refuel_val s) = get_agent_y s.
Proof.
  unfold refuel_val.
  by destruct (at_fuel_station mdp (get_agent_x s) (get_agent_y s)) as [[] cap].
Qed.

Lemma unhook_val_agent s n : agent (unhook_val s n) = agent n.
Proof. unfold unhook_val. by destruct (_moved_off_of_hotswap_station s n). Qed.
Lemma unhook_val_passengers s n : passengers (unhook_val s n) = passengers n.
Proof. unfold unhook_val. by destruct (_moved_off_of_hotswap_station s n). Qed.
Lemma unhook_val_flags s n :
  is_terminal (unhook_val s n) = is_terminal n ∧ is_goal (unhook_val s n) = is_goal n.
Proof. unfold unhook_val. by destruct (_moved_off_of_hotswap_station s n). Qed.
Lemma unhook_val_is_goal s n :
  is_taxi_goal_state (unhook_val s n) = is_taxi_goal_state n.
Proof. unfold is_taxi_goal_state. by rewrite unhook_val_passengers. Qed.

Lemma terminal_val_agent n : agent (terminal_val n) = agent n.
Proof. unfold terminal_val. by destruct (is_taxi_goal_state n). Qed.
Lemma terminal_val_passengers n : passengers (terminal_val n) = passengers n.
Proof. unfold terminal_val. by destruct (is_taxi_goal_state n). Qed.
Lemma terminal_val_hotswap n : hotswap_stations (terminal_val n) = hotswap_stations n.
Proof. unfold terminal_val. by destruct (is_taxi_goal_state n). Qed.
Lemma terminal_val_is_goal n :
  is_taxi_goal_state (terminal_val n) = is_taxi_goal_state n.
Proof. unfold is_taxi_goal_state. by rewrite terminal_val_passengers. Qed.

(** A dispatched copy either stands where the input stood, or one cell away
    in the direction asked for, and then only when the guard of the branch
    held and no wall was in the way. *)
Lemma dispatch_val_position action b s n :
  dispatch_val action b s = Some n →
  (get_agent_x n = get_agent_x s ∧ get_agent_y n = get_agent_y s) ∨
  (∃ dx dy, nav_delta action = Some (dx, dy) ∧ b = false ∧
            _is_wall_in_the_way mdp s dx dy = false ∧
            get_agent_x n = (get_agent_x s + dx)%Z ∧
            get_agent_y n = (get_agent_y s + dy)%Z ∧
            (1 ≤ get_agent_x s → get_agent_x s ≤ width mdp →
             1 ≤ get_agent_y s → get_agent_y s ≤ height mdp →
             in_grid (get_agent_x s + dx) (get_agent_y s + dy))%Z).
Proof.
  destruct (decide (action ∈ AUGMENTED_ACTIONS)) as [Hin|Hn];
    [|by rewrite dispatch_val_other].
  unfold AUGMENTED_ACTIONS in Hin.
  repeat (apply elem_of_cons in Hin as [->|Hin]);
    [..|by apply elem_of_nil in Hin]; autorewrite with dispatch.
  1-4: destruct (bool_decide _) eqn:Hg; [|done];
       destruct b; [done|]; simpl; unfold move_val;
       destruct (_is_wall_in_the_way mdp s _ _) eqn:Hw; [done|];
       intros [= <-]; right; eexists _, _; (split; [reflexivity|]);
       apply bool_decide_eq_true in Hg;
       (repeat split; try done); unfold in_grid; lia.
  - intros [= <-]. left. apply pickup_val_agent_xy.
  - intros [= <-]. left. apply dropoff_val_agent_xy.
  - intros [= <-]. left. apply refuel_val_agent_xy.
Qed.


(** ** The store after a call *)

Lemma transition_result w l s action w' r :
  heap w !! l = Some s →
  _taxi_transition_func (StateArg l) action w = (w', r) →
  (w' = w ∧ r = inl ValueError ∧ ¬ valid_action s action) ∨
  (w' = w ∧ r = inr l ∧ valid_action s action ∧ is_taxi_goal_state s = true) ∨
  (valid_action s action ∧ is_taxi_goal_state s = false ∧
   rng w' = rng w + snd (stuck_val s (rng w)) ∧
   ((next_val action (rng w) s = None ∧
     heap w' = <[l := fuel_val s]> (heap w) ∧ r = inr l) ∨
    (∃ n, next_val action (rng w) s = Some n ∧
          heap w' = <[l := fuel_val s]> (heap w) ++ [n] ∧
          r = inr (length (heap w))))).
Proof.
  intros H Ht.
  destruct (decide (action ∈ active_actions s)) as [Hv|Hv].
  - destruct (is_taxi_goal_state s) eqn:Hg.
    + rewrite (transition_goal _ _ _ _ H Hv Hg) in Ht.
      injection Ht as <- <-. right; left. done.
    + rewrite (transition_step _ _ _ _ H Hv Hg) in Ht.
      right; right. split; [done|]. split; [done|].
      destruct (next_val action (rng w) s) as [n|]; simpl in Ht;
        injection Ht as <- <-; simpl; (split; [done|]).
      * right. exists n. by rewrite length_insert.
      * by left.
  - rewrite (transition_invalid _ _ _ _ H Hv) in Ht.
    injection Ht as <- <-. by left.
Qed.

(** A call on a live state returns a live state. *)
Lemma transition_live w l s action w' l' :
  heap w !! l = Some s →
  _taxi_transition_func (StateArg l) action w = (w', inr l') →
  ∃ s', heap w' !! l' = Some s' ∧
        ((l' = l ∧ s' = s ∧ is_taxi_goal_state s = true) ∨
         (l' = l ∧ s' = fuel_val s ∧ is_taxi_goal_state s = false ∧
          next_val action (rng w) s = None) ∨
         (l' = length (heap w) ∧ is_taxi_goal_state s = false ∧
          next_val action (rng w) s = Some s')).
Proof.
  intros H Ht.
  assert (Hl : l < length (heap w)) by by eapply lookup_lt_Some.
  destruct (transition_result _ _ _ _ _ _ H Ht)
    as [(_ & ? & _)|[(-> & [= ->] & _ & Hg)|(_ & Hg & _ & [(Hn & Hh & [= ->])|(n & Hn & Hh & [= ->])])]];
    [done|..].
  - exists s. split; [done|]. by left.
  - exists (fuel_val s). rewrite Hh. split; [by apply list_lookup_insert_eq|].
    right; left. done.
  - exists n. rewrite Hh. split.
    + apply list_lookup_middle. by rewrite length_insert.
    + right; right. done.
Qed.

(** Establish and preserve: a property of the initial state that survives
    the fuel decrement and a step holds of every state in a reachable
    store. *)
Lemma reachable_invariant (P : AugmentedTaxiState → Prop) init w :
  P init →
  (∀ s, P s → P (fuel_val s)) →
  (∀ s action b n, P s → is_taxi_goal_state s = false →
     dispatch_val action b s = Some n → P (terminal_val (unhook_val s n))) →
  reachable init w →
  ∀ l s, heap w !! l = Some s → P s.
Proof.
  intros Hinit Hfuel Hstep Hr. induction Hr as [|w l0 action w' r Hr IH Hl0 Ht].
  - intros [|l] s; simpl; [by intros [= <-]|done].
  - intros l s Hs.
    destruct (lookup_lt_is_Some_2 _ _ Hl0) as [s0 Hs0].
    destruct (transition_result _ _ _ _ _ _ Hs0 Ht)
      as [(-> & _)|[(-> & _)|(_ & Hg & _ & [(_ & Hh & _)|(n & Hn & Hh & _)])]];
      [by eapply IH|by eapply IH|..].
    + rewrite Hh in Hs. apply list_lookup_insert_Some in Hs as [(_ & <- & _)|(_ & Hs)].
      * apply Hfuel. by eapply IH.
      * by eapply IH.
    + rewrite Hh in Hs. apply lookup_snoc_Some in Hs as [(_ & Hs)|(_ & <-)].
      * apply list_lookup_insert_Some in Hs as [(_ & <- & _)|(_ & Hs)].
        -- apply Hfuel. by eapply IH.
        -- by eapply IH.
      * unfold next_val in Hn.
        destruct (dispatch_val action _ (fuel_val s0)) as [m|] eqn:Hd; [|done].
        injection Hn as <-. eapply Hstep; [| |done].
        -- apply Hfuel. by eapply IH.
        -- by rewrite fuel_val_is_goal.
Qed.

Lemma is_taxi_goal_state_spec s :
  is_taxi_goal_state s = true ↔
  ∀ p, p ∈ passengers s →
       p_x p = p_dest_x p ∧ p_y p = p_dest_y p ∧ p_in_taxi p = 0%Z.
Proof.
  unfold is_taxi_goal_state. rewrite forallb_forall.
  split; intros H p Hp.
  - apply list_elem_of_In, H in Hp. unfold delivered in Hp.
    apply andb_true_iff in Hp as [[H1 H2]%andb_true_iff H3].
    by apply Z.eqb_eq in H1, H2, H3.
  - apply list_elem_of_In, H in Hp as (H1 & H2 & H3). unfold delivered.
    apply Z.eqb_eq in H1, H2, H3. by rewrite H1, H2, H3.
Qed.

Lemma flagged_goal_fuel s : flagged_goal s → flagged_goal (fuel_val s).
Proof. unfold flagged_goal. by rewrite fuel_val_terminal, fuel_val_is_goal. Qed.

Lemma flagged_goal_step s action b n :
  flagged_goal s → is_taxi_goal_state s = false →
  dispatch_val action b s = Some n → flagged_goal (terminal_val (unhook_val s n)).
Proof.
  unfold flagged_goal. intros HP Hg Hd.
  apply dispatch_val_frame in Hd as (_ & Hterm & _).
  rewrite terminal_val_is_goal. unfold terminal_val.
  destruct (is_taxi_goal_state (unhook_val s n)) eqn:Hg'; [done|].
  destruct (unhook_val_flags s n) as [-> _]. rewrite Hterm.
  intros Ht. apply HP in Ht. congruence.
Qed.


Lemma wall_fuel_val s dx dy :
  _is_wall_in_the_way mdp (fuel_val s) dx dy = _is_wall_in_the_way mdp s dx dy.
Proof. unfold _is_wall_in_the_way. by rewrite fuel_val_x, fuel_val_y. Qed.

Lemma next_val_position action k s n :
  next_val action k s = Some n →
  (get_agent_x n = get_agent_x s ∧ get_agent_y n = get_agent_y s) ∨
  (∃ dx dy, nav_delta action = Some (dx, dy) ∧ fst (stuck_val s k) = false ∧
            _is_wall_in_the_way mdp s dx dy = false ∧
            get_agent_x n = (get_agent_x s + dx)%Z ∧
            get_agent_y n = (get_agent_y s + dy)%Z ∧
            (in_bounds s → in_grid (get_agent_x s + dx) (get_agent_y s + dy))).
Proof.
  unfold next_val. intros Hn.
  destruct (dispatch_val action _ (fuel_val s)) as [m|] eqn:Hd; [|done].
  injection Hn as <-.
  unfold get_agent_x, get_agent_y.
  rewrite terminal_val_agent, unhook_val_agent.
  destruct (dispatch_val_position _ _ _ _ Hd)
    as [[Hx Hy]|(dx & dy & Hnav & Hb & Hw & Hx & Hy & Hin)];
    rewrite fuel_val_x, fuel_val_y in *; unfold get_agent_x, get_agent_y in *.
  - by left.
  - right. exists dx, dy. rewrite wall_fuel_val in Hw.
    repeat split; try done; apply Hin; apply H.
Qed.

(** ** Terminal states *)

(** C2 (amended).  In every store reachable from an initial state whose
    is_terminal flag is not set (or which is a goal state), a state whose
    is_terminal flag is true is a goal state, and transition on it with any
    valid action returns that very object and leaves the store as it was.
    The test the code makes is the goal test on the passengers, not the
    flag. *)
Theorem terminal_state_absorbing init w l s action :
  flagged_goal init →
  reachable init w →
  heap w !! l = Some s →
  valid_action s action →
  is_terminal s = true →
  is_taxi_goal_state s = true ∧
  _taxi_transition_func (StateArg l) action w = (w, inr l).
Proof.
  intros Hinit Hr Hs Hv Ht.
  assert (Hg : is_taxi_goal_state s = true).
  { eapply (reachable_invariant flagged_goal); eauto using flagged_goal_fuel, flagged_goal_step. }
  split; [done|]. by eapply transition_goal.
Qed.

(** C4 (amended).  For every state that is not already a goal state and
    whose is_terminal flag is false, and every valid action, the state
    returned by transition has is_terminal = true and is_goal = true if and
    only if every passenger in it is at its destination with in_taxi = 0. *)
Theorem goal_marking w l s action :
  heap w !! l = Some s →
  valid_action s action →
  is_terminal s = false →
  is_taxi_goal_state s = false →
  ∃ w' l' s',
    _taxi_transition_func (StateArg l) action w = (w', inr l') ∧
    heap w' !! l' = Some s' ∧
    ((is_terminal s' = true ∧ is_goal s' = true) ↔
     (∀ p, p ∈ passengers s' →
           p_x p = p_dest_x p ∧ p_y p = p_dest_y p ∧ p_in_taxi p = 0%Z)).
Proof.
  intros Hs Hv Hflag Hg.
  destruct (_taxi_transition_func (StateArg l) action w) as [w' r] eqn:Ht.
  rewrite (transition_step _ _ _ _ Hs Hv Hg) in Ht.
  assert (Hl : l < length (heap w)) by by eapply lookup_lt_Some.
  unfold next_val in Ht.
  destruct (dispatch_val action _ (fuel_val s)) as [n|] eqn:Hd;
    simpl in Ht; injection Ht as <- <-.
  - eexists _, _, _. split; [done|]. split; [apply lookup_last|].
    rewrite <- is_taxi_goal_state_spec, terminal_val_is_goal.
    apply dispatch_val_frame in Hd as (_ & Hterm & _).
    unfold terminal_val.
    destruct (is_taxi_goal_state (unhook_val (fuel_val s) n)) eqn:Hg'; [done|].
    destruct (unhook_val_flags (fuel_val s) n) as [-> _].
    rewrite Hterm, fuel_val_terminal, Hflag. split; [by intros []|done].
  - eexists _, _, _. split; [done|]. simpl.
    split; [by apply list_lookup_insert_eq|].
    rewrite <- is_taxi_goal_state_spec, fuel_val_is_goal, fuel_val_terminal, Hflag, Hg.
    split; [by intros []|done].
Qed.

(** ** The grid bounds *)

Lemma in_bounds_fuel s : in_bounds s → in_bounds (fuel_val s).
Proof. unfold in_bounds. by rewrite fuel_val_x, fuel_val_y. Qed.

Lemma in_bounds_step s action b n :
  in_bounds s → is_taxi_goal_state s = false →
  dispatch_val action b s = Some n → in_bounds (terminal_val (unhook_val s n)).
Proof.
  intros Hb _ Hd. unfold in_bounds, get_agent_x, get_agent_y.
  rewrite terminal_val_agent, unhook_val_agent.
  destruct (dispatch_val_position _ _ _ _ Hd)
    as [[Hx Hy]|(dx & dy & _ & _ & _ & Hx & Hy & Hin)];
    unfold get_agent_x, get_agent_y in *; rewrite Hx, Hy; [done|].
  apply Hin; apply Hb.
Qed.

(** C9.  Starting from an initial state whose agent is inside the grid,
    the agent of every state in every reachable store satisfies
    1 <= x <= width and 1 <= y <= height; and a navigation action whose
    destination cell lies outside the grid, or is walled off, leaves the
    agent of the returned state where it was. *)
Theorem agent_stays_in_bounds init w l s :
  in_bounds init →
  reachable init w →
  heap w !! l = Some s →
  (1 ≤ get_agent_x s ≤ width mdp)%Z ∧ (1 ≤ get_agent_y s ≤ height mdp)%Z ∧
  (∀ action dx dy w' l' s',
     nav_delta action = Some (dx, dy) →
     (¬ in_grid (get_agent_x s + dx) (get_agent_y s + dy) ∨
      _is_wall_in_the_way mdp s dx dy = true) →
     _taxi_transition_func (StateArg l) action w = (w', inr l') →
     heap w' !! l' = Some s' →
     get_agent_x s' = get_agent_x s ∧ get_agent_y s' = get_agent_y s).
Proof.
  intros Hinit Hr Hs.
  assert (Hb : in_bounds s).
  { eapply (reachable_invariant in_bounds); eauto using in_bounds_fuel, in_bounds_step. }
  split; [apply Hb|]. split; [apply Hb|].
  intros action dx dy w' l' s' Hnav Hblocked Ht Hs'.
  destruct (transition_live _ _ _ _ _ _ Hs Ht) as (s'' & Hs'' & Hcases).
  assert (s'' = s') as -> by congruence.
  destruct Hcases as [(_ & -> & _)|[(_ & -> & _)|(_ & _ & Hn)]]; [done|..].
  - by rewrite fuel_val_x, fuel_val_y.
  - apply next_val_position in Hn
      as [?|(dx' & dy' & Hnav' & _ & Hw & _ & _ & Hin)]; [done|].
    rewrite Hnav in Hnav'. injection Hnav' as <- <-.
    destruct Hblocked as [Hout|Hwall]; [|congruence].
    destruct Hout. by apply Hin.
Qed.


(** ** Aliasing and the frame of a call *)

Lemma valid_action_augmented s action :
  valid_action s action → action ∈ AUGMENTED_ACTIONS.
Proof.
  unfold valid_action, active_actions, BASE_ACTIONS, AUGMENTED_ACTIONS.
  destruct (track_fuel s); [done|]. intros Hin.
  repeat (apply elem_of_cons in Hin as [->|Hin]; [repeat constructor|]).
  by apply elem_of_nil in Hin.
Qed.

(** A navigation action hands back the input or a copy moved by its delta;
    the other actions always make a copy. *)
Lemma dispatch_val_nav action dx dy b s n :
  nav_delta action = Some (dx, dy) →
  dispatch_val action b s = Some n →
  n = moved_val dx dy s ∧ (dx ≠ 0 ∨ dy ≠ 0)%Z.
Proof.
  unfold nav_delta. intros Hnav.
  case_action action; revert Hnav; simpl_action; try done;
    intros [= <- <-]; autorewrite with dispatch;
    destruct (_ && _); try done; unfold move_val;
    destruct (_is_wall_in_the_way mdp s _ _); try done;
    intros [= <-]; (split; [done|lia]).
Qed.

Lemma dispatch_val_not_nav action b s :
  action ∈ AUGMENTED_ACTIONS → nav_delta action = None →
  is_Some (dispatch_val action b s).
Proof.
  unfold AUGMENTED_ACTIONS, nav_delta. intros Hin.
  repeat (apply elem_of_cons in Hin as [->|Hin]);
    [..|by apply elem_of_nil in Hin]; simpl_action; try done;
    intros _; autorewrite with dispatch; eauto.
Qed.

(** C1 (amended).  On a state that is not a goal state and with a valid
    action, transition changes nothing in the input state except the
    agent's fuel, which it lowers in place when fuel is tracked, and
    changes no other state object.  The returned object is new for pickup,
    dropoff and refuel and for a navigation action that moves the agent; it
    is the input object itself exactly when the action is a navigation
    action that does not move the agent. *)
Theorem transition_frame w l s action :
  heap w !! l = Some s →
  valid_action s action →
  is_taxi_goal_state s = false →
  ∃ w' l' s',
    _taxi_transition_func (StateArg l) action w = (w', inr l') ∧
    heap w' !! l' = Some s' ∧
    heap w' !! l = Some (fuel_val s) ∧
    (track_fuel s = false → heap w' !! l = Some s) ∧
    (∀ j, j ≠ l → j < length (heap w) → heap w' !! j = heap w !! j) ∧
    (l' = l ∨ (l' = length (heap w) ∧ heap w !! l' = None)) ∧
    (l' = l ↔
     nav_delta action ≠ None ∧
     get_agent_x s' = get_agent_x s ∧ get_agent_y s' = get_agent_y s).
Proof.
  intros Hs Hv Hg.
  assert (Hl : l < length (heap w)) by by eapply lookup_lt_Some.
  rewrite (transition_step _ _ _ _ Hs Hv Hg). unfold next_val.
  destruct (dispatch_val action _ (fuel_val s)) as [n|] eqn:Hd; simpl.
  - eexists _, _, _. split; [done|]. simpl.
    split; [apply list_lookup_middle; by rewrite length_insert|].
    assert (Hin : (<[l:=fuel_val s]> (heap w) ++ [terminal_val (unhook_val (fuel_val s) n)])
                    !! l = Some (fuel_val s)).
    { rewrite lookup_app_l by by rewrite length_insert.
      by apply list_lookup_insert_eq. }
    split; [done|]. split; [intros Hf; rewrite Hin; by rewrite fuel_val_untracked|].
    split.
    { intros j Hj Hjl. rewrite lookup_app_l by by rewrite length_insert.
      by apply list_lookup_insert_ne. }
    rewrite length_insert. split.
    { right. split; [done|]. by apply lookup_ge_None. }
    split; [lia|]. intros (Hnav & Hx & Hy). exfalso.
    destruct (nav_delta action) as [[dx dy]|] eqn:Hnd; [|done].
    destruct (dispatch_val_nav _ _ _ _ _ _ Hnd Hd) as [-> Hne].
    revert Hx Hy. unfold get_agent_x, get_agent_y.
    rewrite terminal_val_agent, unhook_val_agent. simpl.
    pose proof (fuel_val_x s) as Hfx. pose proof (fuel_val_y s) as Hfy.
    unfold get_agent_x, get_agent_y in Hfx, Hfy. rewrite Hfx, Hfy. lia.
  - eexists _, _, _. split; [done|]. simpl.
    assert (Hin : <[l:=fuel_val s]> (heap w) !! l = Some (fuel_val s))
      by by apply list_lookup_insert_eq.
    split; [done|]. split; [done|].
    split; [intros Hf; rewrite Hin; by rewrite fuel_val_untracked|].
    split; [intros j Hj Hjl; by apply list_lookup_insert_ne|].
    split; [by left|]. split; [|done]. intros _.
    rewrite fuel_val_x, fuel_val_y. split; [|done].
    intros Hnav.
    destruct (dispatch_val_not_nav action (fst (stuck_val s (rng w))) (fuel_val s))
      as [m Hm]; [by eapply valid_action_augmented|done|congruence].
Qed.

(** ** Validation *)

Lemma compute_reward_features_run w l l' s s' action :
  heap w !! l = Some s → heap w !! l' = Some s' →
  ∃ f, compute_reward_features l action l' w = (w, inr f).
Proof.
  intros Hs Hs'. unfold compute_reward_features.
  rewrite bind_run, (get_run _ _ _ Hs), bind_run, (get_run _ _ _ Hs').
  eauto.
Qed.

(** On a state argument, transition and reward raise ValueError if and
    only if the action is not in the action set that is active for the
    state (the seven augmented actions when fuel is tracked, else the six
    base actions); they raise nothing else, and when they raise the store
    is as it was before the call. *)
Lemma invalid_action_raises w l l' s s' action :
  heap w !! l = Some s →
  heap w !! l' = Some s' →
  ((∃ w', _taxi_transition_func (StateArg l) action w = (w', inl ValueError)) ↔
   action ∉ (if track_fuel s then AUGMENTED_ACTIONS else BASE_ACTIONS)) ∧
  ((∃ w', _taxi_reward_func (StateArg l) action l' w = (w', inl ValueError)) ↔
   action ∉ (if track_fuel s then AUGMENTED_ACTIONS else BASE_ACTIONS)) ∧
  (∀ w' e, _taxi_transition_func (StateArg l) action w = (w', inl e) → e = ValueError ∧ w' = w) ∧
  (∀ w' e, _taxi_reward_func (StateArg l) action l' w = (w', inl e) → e = ValueError ∧ w' = w).
Proof.
  intros Hs Hs'. fold (active_actions s).
  assert (Hreward_ok : valid_action s action → ∃ q, _taxi_reward_func (StateArg l) action l' w = (w, inr q)).
  { intros Hv. unfold _taxi_reward_func.
    rewrite bind_run, (error_check_ok _ _ _ _ Hs Hv), bind_run.
    destruct (compute_reward_features_run w l l' s s' action Hs Hs') as [f ->]. eauto. }
  assert (Hreward_bad : ¬ valid_action s action →
                        _taxi_reward_func (StateArg l) action l' w = (w, inl ValueError)).
  { intros Hv. unfold _taxi_reward_func.
    by rewrite bind_run, (error_check_bad _ _ _ _ Hs Hv). }
  repeat split.
  - intros [w' Ht] Hv.
    destruct (transition_result _ _ _ _ _ _ Hs Ht)
      as [(_ & _ & ?)|[(_ & ? & _)|(_ & _ & _ & [(_ & _ & ?)|(? & _ & _ & ?)])]]; done.
  - intros Hv. exists w. by apply (transition_invalid _ _ s).
  - intros [w' Ht] Hv. destruct (Hreward_ok Hv) as [q Hq]. congruence.
  - intros Hv. exists w. by apply Hreward_bad.
  - destruct (transition_result _ _ _ _ _ _ Hs H)
      as [(_ & ? & _)|[(_ & ? & _)|(_ & _ & _ & [(_ & _ & ?)|(? & _ & _ & ?)])]]; congruence.
  - destruct (transition_result _ _ _ _ _ _ Hs H)
      as [(? & _ & _)|[(_ & ? & _)|(_ & _ & _ & [(_ & _ & ?)|(? & _ & _ & ?)])]]; congruence.
  - destruct (decide (action ∈ active_actions s)) as [Hv|Hv].
    + destruct (Hreward_ok Hv) as [q Hq]. congruence.
    + rewrite (Hreward_bad Hv) in H. congruence.
  - destruct (decide (action ∈ active_actions s)) as [Hv|Hv].
    + destruct (Hreward_ok Hv) as [q Hq]. congruence.
    + rewrite (Hreward_bad Hv) in H. congruence.
Qed.


(** An argument of another class that has a track_fuel method gets
    ValueError, from the action test or else from the isinstance test. *)
Lemma other_class_raises_value_error answer action next_state w :
  _error_check (OtherArg (Some answer)) action w = (w, inl ValueError) ∧
  _taxi_transition_func (OtherArg (Some answer)) action w = (w, inl ValueError) ∧
  _taxi_reward_func (OtherArg (Some answer)) action next_state w = (w, inl ValueError).
Proof.
  assert (He : _error_check (OtherArg (Some answer)) action w = (w, inl ValueError)).
  { unfold _error_check, call_track_fuel. rewrite !bind_run. simpl.
    destruct answer; by destruct (bool_decide _). }
  unfold _taxi_transition_func, _taxi_reward_func.
  by rewrite !bind_run, He.
Qed.

(** C7.  The code departs from the claim on an argument of another class
    that has no track_fuel method: _error_check calls state.track_fuel()
    before it reaches the isinstance test, so transition and reward raise
    AttributeError where the claim says ValueError.  The store is as it was
    before the call. *)
Theorem wrong_class_raises_attribute_error action next_state w :
  _error_check (OtherArg None) action w = (w, inl AttributeError) ∧
  _taxi_transition_func (OtherArg None) action w = (w, inl AttributeError) ∧
  _taxi_reward_func (OtherArg None) action next_state w = (w, inl AttributeError).
Proof. done. Qed.

(** ** Slip and traffic *)

(** C5 (amended).  On a state that is not a goal state (some passenger is
    in the taxi or away from its destination), the stuck outcome is the slip
    draw (draw < slip_prob) or, when the agent's cell has a traffic entry
    with probability p, a second draw (draw < p); the second draw is made
    only on a traffic cell.  With a true stuck outcome, up, down, left and
    right hand the input state back with the agent where it was, while
    pickup, dropoff and refuel go to their effect functions whatever the
    stuck outcome is. *)
Theorem stuck_blocks_navigation_only w l s :
  heap w !! l = Some s →
  is_taxi_goal_state s = false →
  ∃ stuck used,
    (stuck = bool_decide (draws (rng w) < slip_prob mdp)%Qc
             || (fst (at_traffic mdp (get_agent_x s) (get_agent_y s))
                 && bool_decide (draws (S (rng w)) <
                       snd (at_traffic mdp (get_agent_x s) (get_agent_y s)))%Qc)) ∧
    used = (if fst (at_traffic mdp (get_agent_x s) (get_agent_y s)) then 2 else 1) ∧
    draw_stuck s w = (mkWorld (heap w) (rng w + used), inr stuck) ∧
    (∀ action, action ∈ ["up"; "down"; "left"; "right"] → stuck = true →
       dispatch l action true w = (w, inr l) ∧
       _taxi_transition_func (StateArg l) action w =
         (mkWorld (<[l := fuel_val s]> (heap w)) (rng w + used), inr l) ∧
       get_agent_x (fuel_val s) = get_agent_x s ∧
       get_agent_y (fuel_val s) = get_agent_y s) ∧
    (∀ b, dispatch l "pickup" b w = agent_pickup l w ∧
          dispatch l "dropoff" b w = agent_dropoff l w ∧
          dispatch l "refuel" b w = agent_refuel l w) ∧
    (∀ action effect,
       (action, effect) ∈ [("pickup", pickup_val); ("dropoff", dropoff_val);
                           ("refuel", refuel_val)] →
       valid_action s action →
       _taxi_transition_func (StateArg l) action w =
         (mkWorld (<[l := fuel_val s]> (heap w) ++
                   [terminal_val (unhook_val (fuel_val s) (effect (fuel_val s)))])
                  (rng w + used),
          inr (length (heap w)))).
Proof.
  intros Hs Hg.
  exists (fst (stuck_val s (rng w))), (snd (stuck_val s (rng w))).
  split; [|split; [|split; [apply draw_stuck_run|split; [|split]]]].
  - unfold stuck_val.
    destruct (at_traffic mdp (get_agent_x s) (get_agent_y s)) as [[] p]; simpl.
    + by destruct (bool_decide (draws (rng w) < _)%Qc), (bool_decide (draws (S (rng w)) < p)%Qc).
    + by rewrite orb_false_r.
  - unfold stuck_val.
    by destruct (at_traffic mdp (get_agent_x s) (get_agent_y s)) as [[] p].
  - intros action Hin Hstuck.
    assert (Hd : ∀ s0, dispatch_val action true s0 = None).
    { intros s0. repeat (apply elem_of_cons in Hin as [->|Hin]);
        [..|by apply elem_of_nil in Hin]; autorewrite with dispatch;
        by rewrite andb_false_r. }
    split; [by rewrite (dispatch_run _ _ _ _ _ Hs), Hd|].
    split; [|by rewrite fuel_val_x, fuel_val_y].
    assert (Hv : valid_action s action).
    { unfold valid_action, active_actions, AUGMENTED_ACTIONS, BASE_ACTIONS.
      destruct (track_fuel s);
        repeat (apply elem_of_cons in Hin as [->|Hin]; [repeat constructor|]);
        by apply elem_of_nil in Hin. }
    rewrite (transition_step _ _ _ _ Hs Hv Hg). unfold next_val.
    by rewrite Hstuck, Hd.
  - intros b.
    rewrite !(dispatch_run _ _ _ _ _ Hs). autorewrite with dispatch.
    by rewrite (agent_pickup_run _ _ _ Hs), (agent_dropoff_run _ _ _ Hs),
               (agent_refuel_run _ _ _ Hs).
  - intros action effect Hin Hv.
    rewrite (transition_step _ _ _ _ Hs Hv Hg). unfold next_val.
    repeat (apply elem_of_cons in Hin as [[= -> ->]|Hin]);
      [..|by apply elem_of_nil in Hin]; autorewrite with dispatch;
      simpl; by rewrite length_insert.
Qed.

(** ** Hotswap stations *)

(** The scan reads the two states only through the agent's position. *)
Lemma moved_off_scan_ext hs i s n s2 n2 :
  get_agent_x s2 = get_agent_x s → get_agent_y s2 = get_agent_y s →
  get_agent_x n2 = get_agent_x n → get_agent_y n2 = get_agent_y n →
  moved_off_scan hs i s2 n2 = moved_off_scan hs i s n.
Proof.
  intros Hx Hy Hx' Hy'. revert i. induction hs as [|c hs IH]; intros i; simpl; [done|].
  unfold moved_off, on_cell. by rewrite Hx, Hy, Hx', Hy', IH.
Qed.

Lemma next_val_hotswap action k s n :
  next_val action k s = Some n →
  hotswap_stations n =
    match _moved_off_of_hotswap_station s n with
    | Some i => delete i (hotswap_stations s)
    | None => hotswap_stations s
    end.
Proof.
  unfold next_val. intros Hn.
  destruct (dispatch_val action _ (fuel_val s)) as [m|] eqn:Hd; [|done].
  injection Hn as <-.
  apply dispatch_val_frame in Hd as (Hhs & _).
  rewrite terminal_val_hotswap.
  unfold _moved_off_of_hotswap_station at 1.
  rewrite <- (fuel_val_hotswap s) at 1.
  rewrite (moved_off_scan_ext _ _ (fuel_val s) m).
  - fold (_moved_off_of_hotswap_station (fuel_val s) m). unfold unhook_val.
    destruct (_moved_off_of_hotswap_station (fuel_val s) m); simpl;
      by rewrite Hhs, fuel_val_hotswap.
  - by rewrite fuel_val_x.
  - by rewrite fuel_val_y.
  - unfold get_agent_x. by rewrite terminal_val_agent, unhook_val_agent.
  - unfold get_agent_y. by rewrite terminal_val_agent, unhook_val_agent.
Qed.

Lemma transition_hotswap w l s action w' l' :
  heap w !! l = Some s →
  _taxi_transition_func (StateArg l) action w = (w', inr l') →
  ∃ s', heap w' !! l' = Some s' ∧
        hotswap_stations s' =
          match _moved_off_of_hotswap_station s s' with
          | Some i => delete i (hotswap_stations s)
          | None => hotswap_stations s
          end.
Proof.
  intros Hs Ht.
  destruct (transition_live _ _ _ _ _ _ Hs Ht) as (s' & Hs' & Hcases).
  exists s'. split; [done|].
  destruct Hcases as [(_ & -> & _)|[(_ & -> & _)|(_ & _ & Hn)]].
  - unfold _moved_off_of_hotswap_station. by rewrite moved_off_scan_same_place.
  - unfold _moved_off_of_hotswap_station.
    rewrite moved_off_scan_same_place; [apply fuel_val_hotswap|apply fuel_val_x|apply fuel_val_y].
  - by eapply next_val_hotswap.
Qed.

Lemma length_delete_le {A} (i : nat) (l : list A) : length (delete i l) ≤ length l.
Proof.
  revert i. induction l as [|x l IH]; intros [|i]; simpl; try lia.
  specialize (IH i). lia.
Qed.

Lemma trajectory_hotswap w l w' l' s :
  trajectory w l w' l' →
  heap w !! l = Some s →
  ∃ s', heap w' !! l' = Some s' ∧
        length (hotswap_stations s') ≤ length (hotswap_stations s).
Proof.
  induction 1 as [|w l w1 l1 w2 l2 action Htr IH Ht]; intros Hs.
  - exists s. split; [done|lia].
  - destruct (IH Hs) as (s1 & Hs1 & Hle).
    destruct (transition_hotswap _ _ _ _ _ _ Hs1 Ht) as (s2 & Hs2 & Hhs).
    exists s2. split; [done|]. rewrite Hhs.
    destruct (_moved_off_of_hotswap_station s1 s2).
    + pose proof (length_delete_le n (hotswap_stations s1)). lia.
    + done.
Qed.

(** C8.  Along every chain of transition calls the number of hotswap
    stations never grows.  A transition deletes from the list the first
    station, in list order, that the agent stood on in the prior state and
    no longer stands on in the next state, and leaves the list as it is
    when there is no such station. *)
Theorem hotswap_stations_never_grow w l s :
  heap w !! l = Some s →
  (∀ w' l', trajectory w l w' l' →
     ∃ s', heap w' !! l' = Some s' ∧
           length (hotswap_stations s') ≤ length (hotswap_stations s)) ∧
  (∀ action w' l',
     _taxi_transition_func (StateArg l) action w = (w', inr l') →
     ∃ s', heap w' !! l' = Some s' ∧
       ((∃ i c, hotswap_stations s !! i = Some c ∧
                on_cell c s = true ∧ on_cell c s' = false ∧
                (∀ k c', k < i → hotswap_stations s !! k = Some c' →
                         on_cell c' s = false ∨ on_cell c' s' = true) ∧
                hotswap_stations s' = delete i (hotswap_stations s) ∧
                S (length (hotswap_stations s')) = length (hotswap_stations s)) ∨
        ((∀ c, c ∈ hotswap_stations s → on_cell c s = false ∨ on_cell c s' = true) ∧
         hotswap_stations s' = hotswap_stations s))).
Proof.
  intros Hs. split.
  - intros w' l' Htr. by eapply trajectory_hotswap.
  - intros action w' l' Ht.
    destruct (transition_hotswap _ _ _ _ _ _ Hs Ht) as (s' & Hs' & Hhs).
    exists s'. split; [done|].
    assert (Hoff : ∀ c, moved_off c s s' = false →
                        on_cell c s = false ∨ on_cell c s' = true).
    { intros c. unfold moved_off.
      destruct (on_cell c s), (on_cell c s'); simpl; auto. }
    destruct (_moved_off_of_hotswap_station s s') as [i|] eqn:Hi.
    + left. unfold _moved_off_of_hotswap_station in Hi.
      apply moved_off_scan_Some in Hi as (c & Hc & _ & Hm & Hfirst).
      replace (i - 0) with i in * by lia.
      exists i, c. split; [done|].
      unfold moved_off in Hm. apply andb_true_iff in Hm as [Hon Hoff'].
      apply negb_true_iff in Hoff'.
      repeat split; try done.
      * intros k c' Hk Hc'. apply Hoff. by eapply Hfirst.
      * rewrite Hhs, length_delete by eauto.
        apply lookup_lt_Some in Hc. lia.
    + right. split; [|done]. intros c Hc. apply Hoff.
      unfold _moved_off_of_hotswap_station in Hi.
      by eapply moved_off_scan_None.
Qed.


(** ** Reward *)

(** C6.  For a valid action the feature vector is
    [toll_flag, hotswap_flag, 1]: toll_flag is 1 iff the configuration has
    a toll and the agent was on a toll cell in state and is off that cell
    in next_state, and 0 otherwise; hotswap_flag is 1 iff the agent was on
    a hotswap station of state and is off it in next_state, and 0
    otherwise; both are 0 when there is no toll, respectively no station;
    and the reward is the dot product of the weights with this vector. *)
Theorem reward_is_weighted_features w l l' s s' action :
  heap w !! l = Some s →
  heap w !! l' = Some s' →
  valid_action s action →
  ∃ toll_flag hotswap_flag : Z,
    compute_reward_features l action l' w = (w, inr (toll_flag, hotswap_flag, 1%Z)) ∧
    (toll_flag = 1%Z ∨ toll_flag = 0%Z) ∧
    (toll_flag = 1%Z ↔
       tolls mdp ≠ [] ∧
       ∃ c, c ∈ tolls mdp ∧ on_cell c s = true ∧ on_cell c s' = false) ∧
    (tolls mdp = [] → toll_flag = 0%Z) ∧
    (hotswap_flag = 1%Z ∨ hotswap_flag = 0%Z) ∧
    (hotswap_flag = 1%Z ↔
       ∃ c, c ∈ hotswap_stations s ∧ on_cell c s = true ∧ on_cell c s' = false) ∧
    (hotswap_stations s = [] → hotswap_flag = 0%Z) ∧
    _taxi_reward_func (StateArg l) action l' w =
      (w, inr (fst (fst (weights mdp)) * Z2Qc toll_flag +
               snd (fst (weights mdp)) * Z2Qc hotswap_flag +
               snd (weights mdp) * Z2Qc 1)%Qc).
Proof.
  intros Hs Hs' Hv.
  assert (Hex : ∀ cs, existsb (λ c, moved_off c s s') cs = true ↔
                      ∃ c, c ∈ cs ∧ on_cell c s = true ∧ on_cell c s' = false).
  { intros cs. rewrite existsb_exists. unfold moved_off.
    split; intros (c & Hc & Hm); exists c.
    - apply list_elem_of_In in Hc. apply andb_true_iff in Hm as [? ?%negb_true_iff]. done.
    - destruct Hm as [-> ->]. by apply list_elem_of_In in Hc. }
  unfold _taxi_reward_func, compute_reward_features.
  rewrite !bind_run, (error_check_ok _ _ _ _ Hs Hv).
  rewrite !bind_run, (get_run _ _ _ Hs), !bind_run, (get_run _ _ _ Hs').
  eexists _, _. split; [reflexivity|].
  split; [|split; [|split; [|split; [|split; [|split]]]]].
  - destruct (bool_decide _), (_moved_off_of_toll mdp s s'); auto.
  - unfold _moved_off_of_toll. rewrite <- Hex.
    destruct (tolls mdp) as [|c cs] eqn:Htolls; simpl length.
    + rewrite bool_decide_eq_false_2 by (simpl; lia). simpl. split; [done|]. by intros [].
    + rewrite bool_decide_eq_true_2 by done.
      destruct (existsb _ (c :: cs)); split; try done. by intros [].
  - intros ->. by rewrite bool_decide_eq_false_2 by (simpl; lia).
  - destruct (bool_decide _), (_moved_off_of_hotswap_station s s'); auto.
  - rewrite <- Hex.
    assert (Hscan : existsb (λ c, moved_off c s s') (hotswap_stations s) =
                    match _moved_off_of_hotswap_station s s' with
                    | Some _ => true | None => false end).
    { unfold _moved_off_of_hotswap_station. generalize 0.
      induction (hotswap_stations s) as [|c cs IH]; intros i; simpl; [done|].
      destruct (moved_off c s s'); [done|]. apply IH. }
    rewrite Hscan.
    destruct (hotswap_stations s) as [|c cs] eqn:Hhs.
    + unfold _moved_off_of_hotswap_station. rewrite Hhs.
      rewrite bool_decide_eq_false_2 by (simpl; lia). done.
    + rewrite bool_decide_eq_true_2 by done.
      destruct (_moved_off_of_hotswap_station s s'); done.
  - intros ->. by rewrite bool_decide_eq_false_2 by (simpl; lia).
  - unfold dot. by destruct (weights mdp) as [[w1 w2] w3].
Qed.

(** ** Pickup and dropoff *)

Lemma pickup_loop_spec ps a :
  pickup_loop a ps =
    (if existsb (colocated a) ps then set_has_passenger 1 a else a,
     map (λ p, if colocated a p then set_in_taxi 1 p else p) ps).
Proof.
  revert a. induction ps as [|p ps IH]; intros a; simpl; [done|].
  fold (colocated a p). destruct (colocated a p); rewrite IH; simpl; [|done].
  f_equal. by destruct (existsb _ ps).
Qed.

Lemma dropoff_loop_spec ps a :
  dropoff_loop a ps =
    (if existsb riding ps then set_has_passenger 0 a else a,
     map (λ p, if riding p then set_in_taxi 0 p else p) ps).
Proof.
  revert a. induction ps as [|p ps IH]; intros a; simpl; [done|].
  fold (riding p). destruct (riding p); rewrite IH; simpl; [|done].
  f_equal. by destruct (existsb _ ps).
Qed.

Lemma count_zero_iff (ps : list Passenger) :
  length (filter (λ p, p_in_taxi p = 1%Z) ps) = 0 ↔ existsb riding ps = false.
Proof.
  induction ps as [|p ps IH]; simpl; [done|].
  rewrite filter_cons. unfold riding at 1.
  destruct (decide (p_in_taxi p = 1%Z)) as [Hp|Hp].
  - rewrite bool_decide_eq_true_2 by done. simpl. split; [lia|done].
  - by rewrite bool_decide_eq_false_2 by done.
Qed.

Lemma count_map_same (f : Passenger → Passenger) (ps : list Passenger) :
  (∀ p, p_in_taxi (f p) = p_in_taxi p) →
  length (filter (λ p, p_in_taxi p = 1%Z) (map f ps)) =
  length (filter (λ p, p_in_taxi p = 1%Z) ps).
Proof.
  intros Hf. induction ps as [|p ps IH]; simpl; [done|].
  rewrite !filter_cons, Hf. destruct (decide _); simpl; by rewrite IH.
Qed.

Lemma passenger_inv_fuel s : passenger_inv s → passenger_inv (fuel_val s).
Proof.
  unfold passenger_inv, in_taxi_count.
  by rewrite fuel_val_passengers, fuel_val_has_passenger.
Qed.

Lemma passenger_inv_pickup s : passenger_inv s → passenger_inv (pickup_val s).
Proof.
  unfold passenger_inv, in_taxi_count, pickup_val. intros Hinv.
  destruct (bool_decide (ag_has_passenger (agent s) = 0%Z)) eqn:Hhp; [|done].
  apply bool_decide_eq_true in Hhp. rewrite Hhp in Hinv.
  destruct (bool_decide (length _ = 0)) eqn:Hc in Hinv; [|done].
  apply bool_decide_eq_true, count_zero_iff in Hc.
  rewrite pickup_loop_spec. unfold store_loop. simpl.
  assert (Hex : existsb riding
                  (map (λ p, if colocated (agent s) p then set_in_taxi 1 p else p)
                       (passengers s))
                = existsb (colocated (agent s)) (passengers s)).
  { revert Hc. induction (passengers s) as [|p ps IH]; simpl; [done|].
    intros [Hp Hps]%orb_false_iff. rewrite IH by done.
    destruct (colocated (agent s) p); simpl; [done|]. by rewrite Hp. }
  destruct (existsb (colocated (agent s)) (passengers s)) eqn:Hco; simpl.
  - rewrite bool_decide_eq_false_2; [done|].
    rewrite count_zero_iff. congruence.
  - rewrite bool_decide_eq_true_2; [done|].
    rewrite count_zero_iff. congruence.
Qed.

Lemma dropoff_none_riding (ps : list Passenger) :
  existsb riding (map (λ p, if riding p then set_in_taxi 0 p else p) ps) = false.
Proof.
  induction ps as [|p ps IH]; simpl; [done|].
  rewrite IH, orb_false_r. by destruct (riding p) eqn:Hp.
Qed.

Lemma passenger_inv_dropoff s : passenger_inv s → passenger_inv (dropoff_val s).
Proof.
  unfold passenger_inv, in_taxi_count, dropoff_val. intros Hinv.
  destruct (bool_decide (ag_has_passenger (agent s) = 1%Z)) eqn:Hhp; [|done].
  apply bool_decide_eq_true in Hhp. rewrite Hhp in Hinv.
  destruct (bool_decide (length _ = 0)) eqn:Hc in Hinv; [done|].
  apply bool_decide_eq_false in Hc. rewrite count_zero_iff in Hc.
  apply not_false_is_true in Hc.
  rewrite dropoff_loop_spec, Hc. unfold store_loop. simpl.
  rewrite bool_decide_eq_true_2; [done|].
  rewrite count_zero_iff. apply dropoff_none_riding.
Qed.

Lemma passenger_inv_step s action b n :
  passenger_inv s → is_taxi_goal_state s = false →
  dispatch_val action b s = Some n → passenger_inv (terminal_val (unhook_val s n)).
Proof.
  intros Hinv _ Hd.
  assert (Hn : passenger_inv n).
  { destruct (decide (action ∈ AUGMENTED_ACTIONS)) as [Hin|Hn];
      [|by rewrite dispatch_val_other in Hd].
    destruct (nav_delta action) as [[dx dy]|] eqn:Hnav.
    - destruct (dispatch_val_nav _ _ _ _ _ _ Hnav Hd) as [-> _].
      unfold passenger_inv, in_taxi_count, moved_val in *. simpl.
      rewrite count_map_same; [done|].
      intros p. unfold move_pass. destruct (bool_decide (p_in_taxi p = 1%Z)); reflexivity.
    - unfold AUGMENTED_ACTIONS, nav_delta in *.
      repeat (apply elem_of_cons in Hin as [->|Hin]);
        [..|by apply elem_of_nil in Hin]; revert Hnav; simpl_action; try done;
        intros _; revert Hd; autorewrite with dispatch; intros [= <-].
      + by apply passenger_inv_pickup.
      + by apply passenger_inv_dropoff.
      + unfold refuel_val.
        by destruct (at_fuel_station mdp (get_agent_x s) (get_agent_y s)) as [[] cap]. }
  unfold passenger_inv, in_taxi_count in *.
  by rewrite terminal_val_agent, unhook_val_agent, terminal_val_passengers,
             unhook_val_passengers.
Qed.


(** C3 (amended).  For every state with has_passenger == 0, pickup sets
    in_taxi = 1 on every passenger that is at the agent's position,
    whatever its in_taxi and wherever it is in the list, leaves every
    other passenger as it is, and sets has_passenger = 1 when there is at
    least one such passenger.  In every state reachable from an initial
    state that satisfies it, has_passenger is 1 when at least one passenger
    has in_taxi == 1 and 0 when none has; the number of such passengers is
    not bounded by 1. *)
Theorem pickup_takes_every_colocated w l s :
  heap w !! l = Some s →
  (ag_has_passenger (agent s) = 0%Z →
   ∃ s', agent_pickup l w = (mkWorld (heap w ++ [s']) (rng w), inr (length (heap w))) ∧
         passengers s' =
           map (λ p, if bool_decide (ag_x (agent s) = p_x p) &&
                        bool_decide (ag_y (agent s) = p_y p)
                     then set_in_taxi 1 p else p) (passengers s) ∧
         agent s' =
           (if existsb (λ p, bool_decide (ag_x (agent s) = p_x p) &&
                             bool_decide (ag_y (agent s) = p_y p)) (passengers s)
            then set_has_passenger 1 (agent s) else agent s)) ∧
  (∀ init, passenger_inv init → reachable init w →
     ag_has_passenger (agent s) =
       if bool_decide (in_taxi_count s = 0) then 0%Z else 1%Z).
Proof.
  intros Hs. split.
  - intros Hhp. rewrite (agent_pickup_run _ _ _ Hs). simpl.
    eexists. split; [reflexivity|].
    unfold pickup_val. rewrite bool_decide_eq_true_2 by done.
    rewrite pickup_loop_spec. unfold store_loop. simpl. done.
  - intros init Hinit Hr.
    eapply (reachable_invariant passenger_inv);
      eauto using passenger_inv_fuel, passenger_inv_step.
Qed.

(** C10 (amended).  agent_dropoff returns a copy that differs from its
    input at most in the agent's has_passenger and in passengers' in_taxi:
    when has_passenger == 1 every passenger with in_taxi == 1 gets
    in_taxi = 0, and has_passenger becomes 0 if there was such a passenger
    (it stays 1 if there was none); when has_passenger is not 1 the copy
    equals the input.  No coordinate, destination, fuel, hotswap station
    or flag differs between input and output. *)
Theorem dropoff_frame w l s :
  heap w !! l = Some s →
  ∃ s',
    agent_dropoff l w = (mkWorld (heap w ++ [s']) (rng w), inr (length (heap w))) ∧
    (ag_has_passenger (agent s) = 1%Z →
       passengers s' =
         map (λ p, if bool_decide (p_in_taxi p = 1%Z) then set_in_taxi 0 p else p)
             (passengers s) ∧
       ag_has_passenger (agent s') =
         if existsb (λ p, bool_decide (p_in_taxi p = 1%Z)) (passengers s)
         then 0%Z else 1%Z) ∧
    (ag_has_passenger (agent s) ≠ 1%Z → s' = s) ∧
    ag_x (agent s') = ag_x (agent s) ∧
    ag_y (agent s') = ag_y (agent s) ∧
    ag_fuel (agent s') = ag_fuel (agent s) ∧
    map (λ p, (p_x p, p_y p, p_dest_x p, p_dest_y p)) (passengers s') =
      map (λ p, (p_x p, p_y p, p_dest_x p, p_dest_y p)) (passengers s) ∧
    hotswap_stations s' = hotswap_stations s ∧
    is_terminal s' = is_terminal s ∧
    is_goal s' = is_goal s.
Proof.
  intros Hs. rewrite (agent_dropoff_run _ _ _ Hs). simpl.
  eexists. split; [reflexivity|].
  unfold dropoff_val.
  destruct (decide (ag_has_passenger (agent s) = 1%Z)) as [Hhp|Hhp].
  - rewrite bool_decide_eq_true_2 by done.
    rewrite dropoff_loop_spec. unfold store_loop. simpl.
    split; [intros _; split; [done|]|].
    { destruct (existsb riding (passengers s)) eqn:Hex;
        unfold riding in Hex; rewrite Hex; [done|]. done. }
    split; [done|].
    repeat split; try by destruct (existsb riding (passengers s)).
    rewrite map_map. apply map_ext. intros p. by destruct (riding p).
  - rewrite bool_decide_eq_false_2 by done. repeat split; done.
Qed.

(** ** Further properties of the action implementations *)

Lemma moved_val_back dx dy s : moved_val (- dx) (- dy) (moved_val dx dy s) = s.
Proof.
  destruct s as [[x y hp fuel] ps hs t g]. unfold moved_val. simpl.
  unfold set_passengers, set_agent, translate_agent. simpl. f_equal.
  - f_equal; lia.
  - rewrite map_map. rewrite <- (map_id ps) at 2. apply map_ext.
    intros [px py qx qy it]. unfold move_pass. simpl.
    destruct (bool_decide (it = 1%Z)) eqn:Hit; simpl; [|by rewrite Hit].
    rewrite Hit. unfold translate_passenger. simpl. f_equal; lia.
Qed.

(** X1.  A move and the opposite move, neither of them walled off, end in
    a new state object whose contents are those of the first state: the
    agent and the passengers it carries are back where they were, and the
    first state is as it was. *)
Theorem move_there_and_back w l s dx dy w1 l1 s1 :
  heap w !! l = Some s →
  _is_wall_in_the_way mdp s dx dy = false →
  move_agent l dx dy w = (w1, inr l1) →
  heap w1 !! l1 = Some s1 →
  _is_wall_in_the_way mdp s1 (- dx) (- dy) = false →
  ∃ w2 l2,
    move_agent l1 (- dx) (- dy) w1 = (w2, inr l2) ∧
    l2 ≠ l ∧ l2 ≠ l1 ∧
    heap w2 !! l2 = Some s ∧
    heap w2 !! l = Some s.
Proof.
  intros Hs Hw Hm Hs1 Hw1.
  rewrite (move_agent_run _ _ _ _ _ Hs) in Hm. unfold move_val in Hm.
  rewrite Hw in Hm. simpl in Hm. injection Hm as <- <-.
  simpl in Hs1. rewrite lookup_last in Hs1. injection Hs1 as <-.
  rewrite (move_agent_run _ _ (moved_val dx dy s)) by apply lookup_last.
  unfold move_val. rewrite Hw1. simpl.
  assert (Hl : l < length (heap w)) by by eapply lookup_lt_Some.
  eexists _, _. split; [reflexivity|].
  rewrite length_app. simpl. split; [lia|]. split; [lia|].
  rewrite moved_val_back. split.
  - replace (length (heap w) + 1) with (length (heap w ++ [moved_val dx dy s]))
      by (rewrite length_app; simpl; lia).
    apply lookup_last.
  - rewrite !lookup_app_l; [done|lia|rewrite length_app; lia].
Qed.

Lemma pickup_dropoff_val s :
  ag_has_passenger (agent s) = 0%Z →
  (∀ p, p ∈ passengers s → p_in_taxi p = 0%Z) →
  dropoff_val (pickup_val s) = s.
Proof.
  intros Hhp Hall. unfold pickup_val. rewrite bool_decide_eq_true_2 by done.
  rewrite pickup_loop_spec. unfold store_loop. simpl.
  destruct s as [[x y hp fuel] ps hs t g]. simpl in *. subst hp.
  unfold dropoff_val. simpl.
  destruct (existsb _ ps) eqn:Hex; simpl.
  - rewrite dropoff_loop_spec. unfold store_loop. simpl.
    assert (Hr : existsb riding
                   (map (λ p, if colocated (mkAgent x y 0 fuel) p
                              then set_in_taxi 1 p else p) ps) = true).
    { clear Hall. induction ps as [|p ps IH]; simpl in *; [done|].
      destruct (colocated _ p); simpl; [done|]. rewrite IH by done.
      apply orb_true_r. }
    rewrite Hr. unfold set_agent, set_passengers, set_has_passenger. simpl.
    f_equal. rewrite map_map. rewrite <- (map_id ps) at 2.
    apply map_ext_in. intros [px py qx qy it] Hin.
    apply list_elem_of_In, Hall in Hin. simpl in Hin. subst it.
    by destruct (colocated _ _).
  - unfold set_agent, set_passengers. simpl. f_equal.
    rewrite <- (map_id ps) at 2. apply map_ext_in. intros p Hin.
    destruct (colocated _ p) eqn:Hc; [|done].
    assert (existsb (colocated (mkAgent x y 0 fuel)) ps = true); [|congruence].
    apply existsb_exists. eauto.
Qed.

(** X2.  With an empty taxi and no passenger marked as riding, a pickup
    followed at once by a dropoff gives a state with the contents of the
    first one: whoever was picked up is set down where it stood, and
    has_passenger is 0 again. *)
Theorem pickup_then_dropoff_restores w l s :
  heap w !! l = Some s →
  ag_has_passenger (agent s) = 0%Z →
  (∀ p, p ∈ passengers s → p_in_taxi p = 0%Z) →
  ∃ w1 l1 w2 l2,
    agent_pickup l w = (w1, inr l1) ∧
    agent_dropoff l1 w1 = (w2, inr l2) ∧
    heap w2 !! l2 = Some s ∧
    heap w2 !! l = Some s.
Proof.
  intros Hs Hhp Hall.
  rewrite (agent_pickup_run _ _ _ Hs). simpl.
  eexists _, _, _, _. split; [reflexivity|].
  rewrite (agent_dropoff_run _ _ (pickup_val s)) by apply lookup_last. simpl.
  split; [reflexivity|].
  rewrite pickup_dropoff_val by done.
  assert (Hl : l < length (heap w)) by by eapply lookup_lt_Some.
  simpl. split; [apply lookup_last|].
  rewrite !lookup_app_l; [done|lia|rewrite length_app; lia].
Qed.

Lemma riders_aboard_fuel s : riders_aboard s → riders_aboard (fuel_val s).
Proof.
  unfold riders_aboard. rewrite fuel_val_passengers.
  pose proof (fuel_val_x s) as Hx. pose proof (fuel_val_y s) as Hy.
  unfold get_agent_x, get_agent_y in *. by rewrite Hx, Hy.
Qed.

Lemma riders_aboard_dispatch s action b n :
  riders_aboard s → dispatch_val action b s = Some n → riders_aboard n.
Proof.
  intros Hinv Hd.
  destruct (decide (action ∈ AUGMENTED_ACTIONS)) as [Hin|Hn];
    [|by rewrite dispatch_val_other in Hd].
  destruct (nav_delta action) as [[dx dy]|] eqn:Hnav.
  - destruct (dispatch_val_nav _ _ _ _ _ _ Hnav Hd) as [-> _].
    intros p Hp Hit. unfold moved_val in Hp. simpl in Hp.
    apply list_elem_of_fmap in Hp as (q & -> & Hq). unfold move_pass in *.
    destruct (bool_decide (p_in_taxi q = 1%Z)) eqn:Hq1.
    + apply bool_decide_eq_true in Hq1. destruct (Hinv q Hq Hq1) as [Hx Hy].
      simpl. by rewrite Hx, Hy.
    + apply bool_decide_eq_false in Hq1. done.
  - unfold AUGMENTED_ACTIONS, nav_delta in *.
    repeat (apply elem_of_cons in Hin as [->|Hin]);
      [..|by apply elem_of_nil in Hin]; revert Hnav; simpl_action; try done;
      intros _; revert Hd; autorewrite with dispatch; intros [= <-].
    + unfold pickup_val. destruct (bool_decide _); [|done].
      rewrite pickup_loop_spec. unfold store_loop. intros p Hp Hit. simpl in *.
      assert (Hag : ∀ a : Agent,
                 ag_x (if existsb (colocated (agent s)) (passengers s)
                       then set_has_passenger 1 (agent s) else agent s) = ag_x (agent s) ∧
                 ag_y (if existsb (colocated (agent s)) (passengers s)
                       then set_has_passenger 1 (agent s) else agent s) = ag_y (agent s)).
      { intros _. by destruct (existsb _ _). }
      destruct (Hag (agent s)) as [-> ->].
      apply list_elem_of_fmap in Hp as (q & -> & Hq).
      destruct (colocated (agent s) q) eqn:Hc.
      * unfold colocated in Hc. apply andb_true_iff in Hc as [Hx Hy].
        apply bool_decide_eq_true in Hx, Hy. simpl. done.
      * by apply Hinv.
    + unfold dropoff_val. destruct (bool_decide _); [|done].
      rewrite dropoff_loop_spec. unfold store_loop. intros p Hp Hit. simpl in *.
      apply list_elem_of_fmap in Hp as (q & -> & Hq).
      destruct (riding q) eqn:Hr; [done|].
      destruct (existsb riding (passengers s)); by apply Hinv.
    + unfold refuel_val.
      by destruct (at_fuel_station mdp (get_agent_x s) (get_agent_y s)) as [[] cap].
Qed.

(** X3.  If in the initial state every passenger with in_taxi == 1 stands
    on the agent's cell, the same holds of every state in every reachable
    store: a passenger in the taxi travels with it. *)
Theorem riding_passengers_travel_with_the_taxi init w l s p :
  riders_aboard init →
  reachable init w →
  heap w !! l = Some s →
  p ∈ passengers s →
  p_in_taxi p = 1%Z →
  p_x p = get_agent_x s ∧ p_y p = get_agent_y s.
Proof.
  intros Hinit Hr Hs. revert p.
  change (riders_aboard s).
  eapply (reachable_invariant riders_aboard); eauto using riders_aboard_fuel.
  intros s0 action b n HP _ Hd.
  apply (riders_aboard_dispatch _ _ _ _ HP) in Hd.
  unfold riders_aboard in *.
  by rewrite terminal_val_passengers, unhook_val_passengers,
             terminal_val_agent, unhook_val_agent.
Qed.

(** X4.  agent_refuel returns a new state object.  Away from a fuel
    station its contents are those of the input; on a fuel station the fuel
    is the capacity of the first station listed for the cell, also when the
    input had no fuel attribute, and nothing else differs; a second refuel
    changes nothing more.  The input is as it was. *)
Theorem refuel_fills_to_capacity w l s :
  heap w !! l = Some s →
  ∃ s',
    agent_refuel l w = (mkWorld (heap w ++ [s']) (rng w), inr (length (heap w))) ∧
    (fst (at_fuel_station mdp (get_agent_x s) (get_agent_y s)) = false → s' = s) ∧
    (fst (at_fuel_station mdp (get_agent_x s) (get_agent_y s)) = true →
       ag_fuel (agent s') = Some (snd (at_fuel_station mdp (get_agent_x s) (get_agent_y s))) ∧
       track_fuel s' = true) ∧
    set_agent (set_fuel (ag_fuel (agent s)) (agent s')) s' = s ∧
    agent_refuel (length (heap w)) (mkWorld (heap w ++ [s']) (rng w))
      = (mkWorld (heap w ++ [s'; s']) (rng w), inr (S (length (heap w)))).
Proof.
  intros Hs. rewrite (agent_refuel_run _ _ _ Hs). simpl.
  eexists. split; [reflexivity|].
  assert (Hxy := refuel_val_agent_xy s).
  rewrite (agent_refuel_run _ _ (refuel_val s)) by apply lookup_last. simpl.
  destruct Hxy as [Hx Hy].
  assert (Hidem : refuel_val (refuel_val s) = refuel_val s).
  { unfold refuel_val at 1. rewrite Hx, Hy. unfold refuel_val.
    destruct (at_fuel_station mdp (get_agent_x s) (get_agent_y s)) as [[] cap]; done. }
  rewrite Hidem, length_app, <- app_assoc. simpl.
  replace (length (heap w) + 1) with (S (length (heap w))) by lia.
  unfold refuel_val.
  destruct (at_fuel_station mdp (get_agent_x s) (get_agent_y s)) as [[] cap]; simpl.
  - split; [done|]. split; [done|]. split; [|done].
    by destruct s as [[x y hp fuel] ps hs t g].
  - split; [done|]. split; [done|]. split; [|done].
    by destruct s as [[x y hp fuel] ps hs t g].
Qed.

(** ** Further properties of the transition function *)

Lemma fuel_val_track s : track_fuel (fuel_val s) = track_fuel s.
Proof.
  unfold fuel_val. destruct (track_fuel s) eqn:Ht; [|done].
  unfold track_fuel in *. simpl. by destruct (ag_fuel (agent s)).
Qed.

Lemma fuel_val_tracked s f :
  ag_fuel (agent s) = Some f →
  ag_fuel (agent (fuel_val s)) = Some (f - fuel_step)%Z.
Proof.
  intros Hf. unfold fuel_val, track_fuel. rewrite Hf. simpl. by rewrite Hf.
Qed.

(** Only a refuel on a fuel station writes the fuel of a dispatched copy. *)
Lemma dispatch_val_fuel action b s n :
  dispatch_val action b s = Some n →
  ag_fuel (agent n) =
    if bool_decide (action = "refuel") &&
       fst (at_fuel_station mdp (get_agent_x s) (get_agent_y s))
    then Some (snd (at_fuel_station mdp (get_agent_x s) (get_agent_y s)))
    else ag_fuel (agent s).
Proof.
  intros Hd.
  destruct (decide (action ∈ AUGMENTED_ACTIONS)) as [Hin|Hn];
    [|by rewrite dispatch_val_other in Hd].
  destruct (nav_delta action) as [[dx dy]|] eqn:Hnav.
  - destruct (dispatch_val_nav _ _ _ _ _ _ Hnav Hd) as [-> _].
    assert (action ≠ "refuel") by (intros ->; discriminate Hnav).
    by rewrite bool_decide_eq_false_2.
  - unfold AUGMENTED_ACTIONS, nav_delta in *.
    repeat (apply elem_of_cons in Hin as [->|Hin]);
      [..|by apply elem_of_nil in Hin]; revert Hnav; simpl_action; try done;
      intros _; revert Hd; autorewrite with dispatch; intros [= <-].
    + unfold pickup_val. destruct (bool_decide _); [|done]. simpl.
      by destruct (pickup_loop_fst_xy (passengers s) (agent s)) as (_ & _ & ->).
    + unfold dropoff_val. destruct (bool_decide _); [|done]. simpl.
      by destruct (dropoff_loop_fst_xy (passengers s) (agent s)) as (_ & _ & ->).
    + unfold refuel_val.
      by destruct (at_fuel_station mdp (get_agent_x s) (get_agent_y s)) as [[] cap].
Qed.

Lemma next_val_fuel action k s n :
  next_val action k s = Some n →
  ag_fuel (agent n) =
    if bool_decide (action = "refuel") &&
       fst (at_fuel_station mdp (get_agent_x s) (get_agent_y s))
    then Some (snd (at_fuel_station mdp (get_agent_x s) (get_agent_y s)))
    else ag_fuel (agent (fuel_val s)).
Proof.
  unfold next_val. intros Hn.
  destruct (dispatch_val action _ (fuel_val s)) as [m|] eqn:Hd; [|done].
  injection Hn as <-. rewrite terminal_val_agent, unhook_val_agent.
  apply dispatch_val_fuel in Hd. by rewrite fuel_val_x, fuel_val_y in Hd.
Qed.

(** X5.  When fuel is tracked, every transition on a state that is not a
    goal state costs the fixed amount of fuel, whether or not the agent
    moves: the fuel of the caller's state drops by it, and so does the fuel
    of the returned state, except after a refuel on a fuel station, where
    the returned state holds the station's capacity. *)
Theorem every_step_costs_fuel w l s action f :
  heap w !! l = Some s →
  valid_action s action →
  is_taxi_goal_state s = false →
  ag_fuel (agent s) = Some f →
  ∃ w' l' s',
    _taxi_transition_func (StateArg l) action w = (w', inr l') ∧
    heap w' !! l' = Some s' ∧
    ag_fuel (agent s') =
      Some (if bool_decide (action = "refuel") &&
               fst (at_fuel_station mdp (get_agent_x s) (get_agent_y s))
            then snd (at_fuel_station mdp (get_agent_x s) (get_agent_y s))
            else (f - fuel_step)%Z) ∧
    (ag_fuel ∘ agent <$> heap w' !! l) = Some (Some (f - fuel_step)%Z).
Proof.
  intros Hs Hv Hg Hf.
  destruct (_taxi_transition_func (StateArg l) action w) as [w' r] eqn:Ht.
  destruct (transition_result _ _ _ _ _ _ Hs Ht)
    as [(_ & _ & ?)|[(_ & _ & _ & ?)|(_ & _ & _ & [(Hn & Hh & ->)|(n & Hn & Hh & ->)])]];
    [done|congruence|..].
  - assert (Hl : l < length (heap w)) by by eapply lookup_lt_Some.
    exists w', l, (fuel_val s). split; [done|]. rewrite Hh.
    rewrite list_lookup_insert_eq by done. split; [done|]. simpl.
    rewrite (fuel_val_tracked _ _ Hf). split; [|done].
    destruct (decide (action = "refuel")) as [->|Hne].
    + unfold next_val in Hn. by rewrite dispatch_val_refuel in Hn.
    + by rewrite bool_decide_eq_false_2.
  - assert (Hl : l < length (heap w)) by by eapply lookup_lt_Some.
    exists w', (length (heap w)), n. split; [done|]. rewrite Hh.
    split; [apply list_lookup_middle; by rewrite length_insert|].
    rewrite (next_val_fuel _ _ _ _ Hn), (fuel_val_tracked _ _ Hf).
    split; [by destruct (_ && _)|].
    rewrite lookup_app_l by by rewrite length_insert.
    rewrite list_lookup_insert_eq by done. simpl.
    by rewrite (fuel_val_tracked _ _ Hf).
Qed.

Lemma transition_track_fuel w l s action w' l' :
  heap w !! l = Some s →
  _taxi_transition_func (StateArg l) action w = (w', inr l') →
  ∃ s', heap w' !! l' = Some s' ∧ track_fuel s' = track_fuel s.
Proof.
  intros Hs Ht.
  assert (Hl : l < length (heap w)) by by eapply lookup_lt_Some.
  destruct (transition_result _ _ _ _ _ _ Hs Ht)
    as [(_ & ? & _)|[(-> & [= ->] & _)|(Hv & _ & _ & [(_ & Hh & [= ->])|(n & Hn & Hh & [= ->])])]];
    [done|by eauto|..].
  - exists (fuel_val s). rewrite Hh, list_lookup_insert_eq by done.
    split; [done|apply fuel_val_track].
  - exists n. rewrite Hh. split; [apply list_lookup_middle; by rewrite length_insert|].
    apply next_val_fuel in Hn. unfold track_fuel at 1. rewrite Hn.
    destruct (bool_decide (action = "refuel")) eqn:Hr; simpl.
    + apply bool_decide_eq_true in Hr as ->.
      assert (Htr : track_fuel s = true).
      { unfold valid_action, active_actions, BASE_ACTIONS in Hv.
        destruct (track_fuel s); [done|].
        repeat (apply elem_of_cons in Hv as [[=]|Hv]). by apply elem_of_nil in Hv. }
      rewrite Htr. destruct (fst _); [done|].
      fold (track_fuel (fuel_val s)). by rewrite fuel_val_track.
    + fold (track_fuel (fuel_val s)). apply fuel_val_track.
Qed.

(** X6.  Fuel tracking never switches along a chain of transition calls, so
    the set of actions the validation accepts is the same at every state of
    the chain: an action is answered with a state at the end of the chain
    exactly when it is in the action set of the state the chain began
    with. *)
Theorem accepted_actions_are_stable w l s w' l' :
  heap w !! l = Some s →
  trajectory w l w' l' →
  ∃ s', heap w' !! l' = Some s' ∧
        track_fuel s' = track_fuel s ∧
        ∀ action,
          action ∈ (if track_fuel s then AUGMENTED_ACTIONS else BASE_ACTIONS) ↔
          ∃ w'' l'', _taxi_transition_func (StateArg l') action w' = (w'', inr l'').
Proof.
  intros Hs Htr.
  assert (Hstable : ∃ s', heap w' !! l' = Some s' ∧ track_fuel s' = track_fuel s).
  { induction Htr as [|w l w1 l1 w2 l2 action Htr IH Ht]; [by eauto|].
    destruct (IH Hs) as (s1 & Hs1 & Htf).
    destruct (transition_track_fuel _ _ _ _ _ _ Hs1 Ht) as (s2 & Hs2 & Htf2).
    exists s2. split; [done|congruence]. }
  destruct Hstable as (s' & Hs' & Htf). exists s'. split; [done|]. split; [done|].
  intros action. rewrite <- Htf. fold (active_actions s'). split.
  - intros Hv. destruct (is_taxi_goal_state s') eqn:Hg.
    + rewrite (transition_goal _ _ _ _ Hs' Hv Hg). eauto.
    + rewrite (transition_step _ _ _ _ Hs' Hv Hg).
      destruct (next_val action (rng w') s'); simpl; eauto.
  - intros (w'' & l'' & Ht).
    destruct (decide (action ∈ active_actions s')) as [Hv|Hv]; [done|].
    rewrite (transition_invalid _ _ _ _ Hs' Hv) in Ht. done.
Qed.

(** X7.  A call of transition on a live state either raises ValueError and
    leaves the store as it was, or returns the address of a live state; it
    raises nothing else (the index handed to [del] is always in range),
    adds at most one state object to the store and removes none. *)
Theorem transition_is_safe w l s action w' r :
  heap w !! l = Some s →
  _taxi_transition_func (StateArg l) action w = (w', r) →
  ((r = inl ValueError ∧ w' = w) ∨
   (∃ l' s', r = inr l' ∧ heap w' !! l' = Some s')) ∧
  length (heap w) ≤ length (heap w') ≤ S (length (heap w)) ∧
  (∀ j, j < length (heap w) → j ≠ l → heap w' !! j = heap w !! j).
Proof.
  intros Hs Ht.
  assert (Hl : l < length (heap w)) by by eapply lookup_lt_Some.
  destruct (transition_result _ _ _ _ _ _ Hs Ht)
    as [(-> & -> & _)|[(-> & -> & _)|(_ & _ & _ & [(_ & Hh & ->)|(n & _ & Hh & ->)])]].
  - split; [by left|]. split; [lia|done].
  - split; [right; by eauto|]. split; [lia|done].
  - rewrite Hh, length_insert. split; [|split; [lia|]].
    + right. exists l, (fuel_val s). split; [done|]. by apply list_lookup_insert_eq.
    + intros j _ Hj. by apply list_lookup_insert_ne.
  - rewrite Hh, length_app, length_insert. simpl. split; [|split; [lia|]].
    + right. exists (length (heap w)), n. split; [done|].
      apply list_lookup_middle. by rewrite length_insert.
    + intros j Hj Hne. rewrite lookup_app_l by by rewrite length_insert.
      by apply list_lookup_insert_ne.
Qed.

Lemma delivered_after (f : Passenger → Passenger) (ps : list Passenger) :
  (∀ p, delivered (f p) = true → delivered p = true) →
  forallb delivered (map f ps) = true → forallb delivered ps = true.
Proof.
  intros Hf. induction ps as [|p ps IH]; simpl; [done|].
  intros [Hp Hps]%andb_true_iff. by rewrite (Hf _ Hp), IH.
Qed.

Lemma delivered_not_riding p : p_in_taxi p = 1%Z → delivered p = false.
Proof. intros Hp. unfold delivered. rewrite Hp. apply andb_false_r. Qed.

(** Only a dropoff can turn a state that is not a goal state into one. *)
Lemma dispatch_val_goal action b s n :
  dispatch_val action b s = Some n →
  is_taxi_goal_state s = false →
  is_taxi_goal_state n = true →
  action = "dropoff".
Proof.
  intros Hd Hg Hn.
  destruct (decide (action ∈ AUGMENTED_ACTIONS)) as [Hin|Hnin];
    [|by rewrite dispatch_val_other in Hd].
  destruct (nav_delta action) as [[dx dy]|] eqn:Hnav.
  - destruct (dispatch_val_nav _ _ _ _ _ _ Hnav Hd) as [-> _].
    unfold is_taxi_goal_state, moved_val in *. simpl in Hn.
    apply delivered_after in Hn; [congruence|].
    intros p. unfold move_pass.
    destruct (bool_decide (p_in_taxi p = 1%Z)) eqn:Hp; [|done].
    apply bool_decide_eq_true in Hp.
    by rewrite (delivered_not_riding (translate_passenger dx dy p)).
  - unfold AUGMENTED_ACTIONS, nav_delta in *.
    repeat (apply elem_of_cons in Hin as [->|Hin]);
      [..|by apply elem_of_nil in Hin]; revert Hnav; simpl_action; try done;
      intros _; revert Hd; autorewrite with dispatch; intros [= <-].
    + exfalso. unfold pickup_val in Hn.
      destruct (bool_decide _); [|congruence].
      rewrite pickup_loop_spec in Hn. unfold is_taxi_goal_state, store_loop in *.
      simpl in Hn. apply delivered_after in Hn; [congruence|].
      intros p. destruct (colocated (agent s) p); [|done].
      by rewrite (delivered_not_riding (set_in_taxi 1 p)).
    + exfalso. unfold refuel_val in Hn.
      destruct (at_fuel_station mdp (get_agent_x s) (get_agent_y s)) as [[] cap];
        unfold is_taxi_goal_state in *; simpl in Hn; congruence.
Qed.

(** X8.  An episode can only end on a dropoff: if transition, called on a
    state that is not a goal state, returns a goal state, or returns a
    state flagged terminal when the input was not flagged, then the action
    was "dropoff". *)
Theorem only_dropoff_reaches_the_goal w l s action w' l' s' :
  heap w !! l = Some s →
  is_taxi_goal_state s = false →
  _taxi_transition_func (StateArg l) action w = (w', inr l') →
  heap w' !! l' = Some s' →
  is_taxi_goal_state s' = true ∨ (is_terminal s = false ∧ is_terminal s' = true) →
  action = "dropoff".
Proof.
  intros Hs Hg Ht Hs' Hend.
  destruct (transition_live _ _ _ _ _ _ Hs Ht) as (s'' & Hs'' & Hcases).
  assert (s'' = s') as -> by congruence.
  destruct Hcases as [(_ & _ & ?)|[(_ & -> & _)|(_ & _ & Hn)]]; [congruence|..].
  - rewrite fuel_val_is_goal, fuel_val_terminal in Hend.
    destruct Hend as [?|[? ?]]; congruence.
  - unfold next_val in Hn.
    destruct (dispatch_val action _ (fuel_val s)) as [m|] eqn:Hd; [|done].
    injection Hn as <-.
    assert (Hm : is_taxi_goal_state m = true).
    { rewrite terminal_val_is_goal, unhook_val_is_goal in Hend.
      destruct Hend as [?|[Hflag Hterm]]; [done|].
      unfold terminal_val in Hterm.
      destruct (is_taxi_goal_state (unhook_val (fuel_val s) m)) eqn:Hgm.
      - by rewrite unhook_val_is_goal in Hgm.
      - destruct (unhook_val_flags (fuel_val s) m) as [Hut _]. rewrite Hut in Hterm.
        apply dispatch_val_frame in Hd as (_ & Hdt & _).
        rewrite Hdt, fuel_val_terminal in Hterm. congruence. }
    eapply dispatch_val_goal; [done| |done]. by rewrite fuel_val_is_goal.
Qed.

(** X9.  On a state that is not a goal state, without traffic cells and
    with a slip draw that is not below slip_prob, a navigation action whose
    destination cell is inside the grid and not walled off moves the agent
    by exactly one cell: the
    returned state is a new object, the agent stands on the destination
    cell, and the passengers with in_taxi == 1, and only they, have moved
    by the same step. *)
Theorem navigation_moves_one_cell w l s action dx dy :
  heap w !! l = Some s →
  is_taxi_goal_state s = false →
  nav_delta action = Some (dx, dy) →
  traffic_cells mdp = [] →
  (slip_prob mdp ≤ draws (rng w))%Qc →
  in_grid (get_agent_x s + dx) (get_agent_y s + dy) →
  _is_wall_in_the_way mdp s dx dy = false →
  ∃ w' s',
    _taxi_transition_func (StateArg l) action w = (w', inr (length (heap w))) ∧
    heap w' !! length (heap w) = Some s' ∧
    get_agent_x s' = (get_agent_x s + dx)%Z ∧
    get_agent_y s' = (get_agent_y s + dy)%Z ∧
    passengers s' =
      map (λ p, if bool_decide (p_in_taxi p = 1%Z)
                then translate_passenger dx dy p else p) (passengers s).
Proof.
  intros Hs Hg Hnav Htraffic Hslip [Hx Hy] Hwall.
  assert (Hin : action ∈ ["up"; "down"; "right"; "left"]).
  { unfold nav_delta in Hnav. case_action action; revert Hnav; simpl_action;
      try done; intros _; repeat constructor. }
  assert (Hv : valid_action s action).
  { unfold valid_action, active_actions, AUGMENTED_ACTIONS, BASE_ACTIONS.
    destruct (track_fuel s);
      repeat (apply elem_of_cons in Hin as [->|Hin]; [repeat constructor|]);
      by apply elem_of_nil in Hin. }
  assert (Hstuck : fst (stuck_val s (rng w)) = false).
  { unfold stuck_val, at_traffic. rewrite Htraffic. simpl.
    apply bool_decide_eq_false. by apply Qcle_not_lt. }
  assert (Hd : dispatch_val action false (fuel_val s) = Some (moved_val dx dy (fuel_val s))).
  { unfold nav_delta in Hnav.
    repeat (apply elem_of_cons in Hin as [->|Hin]);
      [..|by apply elem_of_nil in Hin]; revert Hnav; simpl_action;
      intros [= <- <-]; autorewrite with dispatch;
      rewrite ?fuel_val_x, ?fuel_val_y, andb_true_r;
      (rewrite bool_decide_eq_true_2 by lia);
      unfold move_val; by rewrite wall_fuel_val, Hwall. }
  rewrite (transition_step _ _ _ _ Hs Hv Hg). unfold next_val.
  rewrite Hstuck, Hd. simpl. rewrite length_insert.
  eexists _, _. split; [reflexivity|].
  split; [apply list_lookup_middle; by rewrite length_insert|].
  unfold get_agent_x, get_agent_y.
  rewrite terminal_val_agent, unhook_val_agent, terminal_val_passengers,
          unhook_val_passengers. simpl.
  pose proof (fuel_val_x s) as Hfx. pose proof (fuel_val_y s) as Hfy.
  unfold get_agent_x, get_agent_y in Hfx, Hfy.
  by rewrite Hfx, Hfy, fuel_val_passengers.
Qed.

(** ** Further properties of the reward *)

Lemma Z2Qc_0 : Z2Qc 0 = 0%Qc.
Proof. apply Qc_is_canon. reflexivity. Qed.
Lemma Z2Qc_1 : Z2Qc 1 = 1%Qc.
Proof. apply Qc_is_canon. reflexivity. Qed.
Lemma Z2Qc_add a b : Z2Qc (a + b) = (Z2Qc a + Z2Qc b)%Qc.
Proof.
  apply Qc_is_canon. unfold Z2Qc. simpl.
  rewrite !Qred_correct. rewrite inject_Z_plus. reflexivity.
Qed.

Lemma row_eq {A} (a b c a' b' c' : A) :
  a = a' → b = b' → c = c' → (a, b, c) = (a', b', c').
Proof. by intros -> -> ->. Qed.

Ltac rows :=
  repeat match goal with x : (_ * _)%type |- _ => destruct x end;
  unfold vadd, vscale, zadd, to_float, mret, M_ret in *; cbn [fst snd] in *.
Tactic Notation "row_by" tactic(tac) := do 2 f_equal; apply row_eq; tac.

Lemma compute_reward_features_val w l l' s s' action :
  heap w !! l = Some s → heap w !! l' = Some s' →
  compute_reward_features l action l' w = (w, inr (features_val s s')).
Proof.
  intros Hs Hs'. unfold compute_reward_features.
  by rewrite bind_run, (get_run _ _ _ Hs), bind_run, (get_run _ _ _ Hs').
Qed.

Lemma features_val_range s n :
  ∃ t h, features_val s n = (t, h, 1%Z) ∧ (0 ≤ t ≤ 1)%Z ∧ (0 ≤ h ≤ 1)%Z.
Proof.
  unfold features_val. eexists _, _. split; [reflexivity|].
  split.
  - destruct (bool_decide _), (_moved_off_of_toll mdp s n); lia.
  - destruct (bool_decide _), (_moved_off_of_hotswap_station s n); lia.
Qed.

Lemma features_val_same_place s n :
  get_agent_x n = get_agent_x s → get_agent_y n = get_agent_y s →
  features_val s n = (0, 0, 1)%Z.
Proof.
  intros Hx Hy. unfold features_val, _moved_off_of_toll, _moved_off_of_hotswap_station.
  rewrite moved_off_scan_same_place by done.
  assert (existsb (λ c, moved_off c s n) (tolls mdp) = false) as ->.
  { induction (tolls mdp) as [|c cs IH]; simpl; [done|].
    by rewrite moved_off_same_place. }
  by destruct (bool_decide _), (bool_decide _).
Qed.

(** X10.  A step after which the agent stands where it stood (a blocked
    move, a pickup, a dropoff, a refuel) has the feature row [0, 0, 1], and
    its reward is the step-cost weight alone. *)
Theorem staying_put_earns_the_step_weight w l l' s s' action :
  heap w !! l = Some s →
  heap w !! l' = Some s' →
  get_agent_x s' = get_agent_x s →
  get_agent_y s' = get_agent_y s →
  valid_action s action →
  compute_reward_features l action l' w = (w, inr (0, 0, 1)%Z) ∧
  _taxi_reward_func (StateArg l) action l' w = (w, inr (snd (weights mdp))).
Proof.
  intros Hs Hs' Hx Hy Hv.
  assert (Hf : compute_reward_features l action l' w = (w, inr (0, 0, 1)%Z)).
  { rewrite (compute_reward_features_val _ _ _ _ _ _ Hs Hs').
    by rewrite features_val_same_place. }
  split; [done|]. unfold _taxi_reward_func.
  rewrite bind_run, (error_check_ok _ _ _ _ Hs Hv), bind_run, Hf.
  unfold dot. destruct (weights mdp) as [[w1 w2] w3].
  rewrite Z2Qc_0, Z2Qc_1. unfold mret, M_ret. cbn [snd]. do 2 f_equal. ring.
Qed.

(** X11.  Computed on a state and the state transition returned for it,
    the hotswap feature is 1 exactly when the returned state has one
    hotswap station fewer than the state, and 0 exactly when it has the
    same stations. *)
Theorem hotswap_feature_reports_removal w l s action w' l' :
  heap w !! l = Some s →
  _taxi_transition_func (StateArg l) action w = (w', inr l') →
  ∃ s' toll_flag hotswap_flag,
    heap w' !! l' = Some s' ∧
    compute_reward_features l action l' w' = (w', inr (toll_flag, hotswap_flag, 1%Z)) ∧
    (hotswap_flag = 1%Z ↔
       S (length (hotswap_stations s')) = length (hotswap_stations s)) ∧
    (hotswap_flag = 0%Z ↔ hotswap_stations s' = hotswap_stations s).
Proof.
  intros Hs Ht.
  destruct (transition_hotswap _ _ _ _ _ _ Hs Ht) as (s' & Hs' & Hhs).
  assert (Hl : l < length (heap w)) by by eapply lookup_lt_Some.
  assert (Hs0 : ∃ s0, heap w' !! l = Some s0 ∧
                      hotswap_stations s0 = hotswap_stations s ∧
                      get_agent_x s0 = get_agent_x s ∧ get_agent_y s0 = get_agent_y s).
  { destruct (transition_result _ _ _ _ _ _ Hs Ht)
      as [(_ & ? & _)|[(-> & _)|(_ & _ & _ & [(_ & Hh & _)|(n & _ & Hh & _)])]];
      [done|by eauto|..]; exists (fuel_val s); rewrite Hh.
    - rewrite list_lookup_insert_eq by done.
      by rewrite fuel_val_hotswap, fuel_val_x, fuel_val_y.
    - rewrite lookup_app_l by by rewrite length_insert.
      rewrite list_lookup_insert_eq by done.
      by rewrite fuel_val_hotswap, fuel_val_x, fuel_val_y. }
  destruct Hs0 as (s0 & Hs0 & Hhs0 & Hx0 & Hy0).
  exists s'. eexists _, _. split; [done|].
  rewrite (compute_reward_features_val _ _ _ _ _ _ Hs0 Hs').
  unfold features_val. split; [reflexivity|].
  unfold _moved_off_of_hotswap_station at 1 2. rewrite Hhs0.
  rewrite (moved_off_scan_ext _ _ s s' s0 s') by done.
  fold (_moved_off_of_hotswap_station s s').
  destruct (_moved_off_of_hotswap_station s s') as [i|] eqn:Hi.
  - unfold _moved_off_of_hotswap_station in Hi.
    apply moved_off_scan_bound in Hi.
    assert (Hlen : S (length (hotswap_stations s')) = length (hotswap_stations s)).
    { rewrite Hhs, length_delete by (apply lookup_lt_is_Some_2; lia). lia. }
    rewrite bool_decide_eq_true_2 by lia.
    split; split; try done. intros Heq. rewrite Heq in Hlen. lia.
  - rewrite Hhs. split; split; try done.
    + by destruct (bool_decide _).
    + intros ?. lia.
    + by destruct (bool_decide _).
Qed.

(** ** Accumulated features *)

Lemma accumulate_plain_run w trajectory acc :
  live_trajectory w trajectory →
  accumulate_plain trajectory acc w =
    (w, inr (zadd acc (plain_sum (traj_rows (heap w) trajectory)))).
Proof.
  intros Hlive. revert acc.
  induction Hlive as [|[[l a] l'] rest [[s Hs] [s' Hs']] _ IH]; intros acc; simpl.
  - rows. row_by lia.
  - simpl in Hs, Hs'.
    rewrite bind_run, (compute_reward_features_val _ _ _ _ _ _ Hs Hs'), IH.
    rewrite Hs, Hs'. unfold plain_sum.
    generalize (foldr zadd (0, 0, 0)%Z (traj_rows (heap w) rest)) (features_val s s').
    intros x y. rows. row_by lia.
Qed.

Lemma accumulate_discounted_run w trajectory step acc :
  live_trajectory w trajectory →
  accumulate_discounted trajectory step acc w =
    (w, inr (discounted_rows (traj_rows (heap w) trajectory) step acc)).
Proof.
  intros Hlive. revert step acc.
  induction Hlive as [|[[l a] l'] rest [[s Hs] [s' Hs']] _ IH]; intros step acc; simpl.
  - reflexivity.
  - simpl in Hs, Hs'.
    rewrite bind_run, (compute_reward_features_val _ _ _ _ _ _ Hs Hs'), IH.
    by rewrite Hs, Hs'.
Qed.

Lemma traj_rows_range w trajectory :
  live_trajectory w trajectory →
  ∀ f, f ∈ traj_rows (heap w) trajectory →
       ∃ t h, f = (t, h, 1%Z) ∧ (0 ≤ t ≤ 1)%Z ∧ (0 ≤ h ≤ 1)%Z.
Proof.
  intros Hlive f Hf. unfold traj_rows in Hf.
  apply list_elem_of_fmap in Hf as ([[l a] l'] & -> & Hin). simpl.
  unfold live_trajectory in Hlive. rewrite Forall_forall in Hlive.
  destruct (Hlive _ Hin) as [[s Hs] [s' Hs']]. simpl in Hs, Hs'.
  rewrite Hs, Hs'. apply features_val_range.
Qed.

Lemma plain_sum_range rows_ :
  (∀ f, f ∈ rows_ → ∃ t h, f = (t, h, 1%Z) ∧ (0 ≤ t ≤ 1)%Z ∧ (0 ≤ h ≤ 1)%Z) →
  ∃ t h, plain_sum rows_ = (t, h, Z.of_nat (length rows_)) ∧
         (0 ≤ t ≤ Z.of_nat (length rows_))%Z ∧ (0 ≤ h ≤ Z.of_nat (length rows_))%Z.
Proof.
  induction rows_ as [|f rest IH]; intros Hall.
  - exists 0%Z, 0%Z. simpl. split; [done|lia].
  - destruct IH as (t & h & Hsum & Ht & Hh).
    { intros g Hg. apply Hall. by apply list_elem_of_further. }
    destruct (Hall f) as (t0 & h0 & -> & Ht0 & Hh0); [apply list_elem_of_here|].
    exists (t0 + t)%Z, (h0 + h)%Z. unfold plain_sum in *. simpl. rewrite Hsum.
    simpl. split; [apply row_eq; lia|lia].
Qed.

(** X12.  Without discount, the accumulated row of a trajectory whose
    states are in the store has the number of steps as its third entry and
    whole numbers between 0 and the number of steps as its first two; the
    store is not changed. *)
Theorem accumulated_features_count_steps w trajectory :
  live_trajectory w trajectory →
  ∃ tolls_left stations_left : Z,
    accumulate_reward_features trajectory false w =
      (w, inr (of_int tolls_left, of_int stations_left,
               of_int (Z.of_nat (length trajectory)))) ∧
    (0 ≤ tolls_left ≤ Z.of_nat (length trajectory))%Z ∧
    (0 ≤ stations_left ≤ Z.of_nat (length trajectory))%Z.
Proof.
  intros Hlive. unfold accumulate_reward_features.
  rewrite bind_run, (accumulate_plain_run _ _ _ Hlive).
  destruct (plain_sum_range (traj_rows (heap w) trajectory)) as (t & h & Hsum & Ht & Hh).
  { intros f Hf. unfold traj_rows in Hf.
    apply list_elem_of_fmap in Hf as ([[l a] l'] & -> & Hin). simpl.
    unfold live_trajectory in Hlive. rewrite Forall_forall in Hlive.
    destruct (Hlive _ Hin) as [[s Hs] [s' Hs']]. simpl in Hs, Hs'.
    rewrite Hs, Hs'. apply features_val_range. }
  assert (Hlen : length (traj_rows (heap w) trajectory) = length trajectory)
    by apply length_map.
  rewrite Hlen in *.
  exists t, h. rewrite Hsum. split; [|done].
  rows. by rewrite !Z.add_0_l.
Qed.

Lemma plain_sum_app rows1 rows2 :
  plain_sum (rows1 ++ rows2) = zadd (plain_sum rows1) (plain_sum rows2).
Proof.
  unfold plain_sum. induction rows1 as [|f rest IH]; simpl.
  - generalize (foldr zadd (0, 0, 0)%Z rows2). intros x. by rows.
  - rewrite IH.
    generalize (foldr zadd (0, 0, 0)%Z rest) (foldr zadd (0, 0, 0)%Z rows2).
    intros x y. rows. apply row_eq; lia.
Qed.

(** X13.  Without discount, the accumulated row of two trajectories run
    one after the other is the entry-by-entry sum of the integer rows of
    the two; the store is not changed. *)
Theorem accumulated_features_of_a_concatenation w trajectory1 trajectory2 :
  live_trajectory w trajectory1 →
  live_trajectory w trajectory2 →
  ∃ row1 row2 : Z * Z * Z,
    accumulate_reward_features trajectory1 false w = (w, inr (to_float row1)) ∧
    accumulate_reward_features trajectory2 false w = (w, inr (to_float row2)) ∧
    accumulate_reward_features (trajectory1 ++ trajectory2) false w =
      (w, inr (to_float (zadd row1 row2))).
Proof.
  intros H1 H2.
  assert (H12 : live_trajectory w (trajectory1 ++ trajectory2)) by by apply Forall_app.
  unfold accumulate_reward_features.
  rewrite !bind_run, !accumulate_plain_run by done.
  exists (plain_sum (traj_rows (heap w) trajectory1)),
         (plain_sum (traj_rows (heap w) trajectory2)).
  assert (Happ : traj_rows (heap w) (trajectory1 ++ trajectory2) =
                 traj_rows (heap w) trajectory1 ++ traj_rows (heap w) trajectory2)
    by apply map_app.
  rewrite Happ, plain_sum_app.
  generalize (plain_sum (traj_rows (heap w) trajectory1))
             (plain_sum (traj_rows (heap w) trajectory2)).
  intros x y. rows. by rewrite !Z.add_0_l.
Qed.

(** With a discount factor of 1.0 the discounted loop adds whole numbers,
    and does so exactly while the number of steps stays within the bound. *)
Lemma discounted_rows_exact bound rows_ step a1 a2 a3 n :
  gamma = of_int 1 →
  exact_on_integers bound →
  (∀ f, f ∈ rows_ → ∃ t h, f = (t, h, 1%Z) ∧ (0 ≤ t ≤ 1)%Z ∧ (0 ≤ h ≤ 1)%Z) →
  (0 ≤ a1 ≤ n)%Z → (0 ≤ a2 ≤ n)%Z → (0 ≤ a3 ≤ n)%Z →
  (n + Z.of_nat (length rows_) ≤ bound)%Z →
  discounted_rows rows_ step (to_float (a1, a2, a3)) =
    to_float (zadd (a1, a2, a3) (plain_sum rows_)).
Proof.
  intros Hg (Hpow & Hmul & Hadd). revert step a1 a2 a3 n.
  induction rows_ as [|f rest IH]; intros step a1 a2 a3 n Hall H1 H2 H3 Hlen.
  - simpl. apply row_eq; f_equal; lia.
  - destruct (Hall f) as (t & h & -> & Ht & Hh); [apply list_elem_of_here|].
    simpl in Hlen. simpl. rewrite Hg, Hpow. unfold vscale, vadd. simpl.
    rewrite !Hmul, !Hadd by lia.
    change (of_int (a1 + t), of_int (a2 + h), of_int (a3 + 1))
      with (to_float ((a1 + t)%Z, (a2 + h)%Z, (a3 + 1)%Z)).
    rewrite (IH (S step) _ _ _ (n + 1)%Z); try lia.
    + unfold plain_sum. simpl.
      generalize (foldr zadd (0, 0, 0)%Z rest). intros x. rows.
      apply row_eq; f_equal; lia.
    + intros g Hgin. apply Hall. by apply list_elem_of_further.
Qed.

(** X14.  With gamma equal to 1.0 the discounted accumulation gives the
    same row as the accumulation without discount, for every trajectory
    short enough for float64 to count its steps exactly. *)
Theorem discount_one_is_no_discount w trajectory bound :
  gamma = of_int 1 →
  exact_on_integers bound →
  (Z.of_nat (length trajectory) ≤ bound)%Z →
  live_trajectory w trajectory →
  accumulate_reward_features trajectory true w =
  accumulate_reward_features trajectory false w.
Proof.
  intros Hg Hexact Hlen Hlive. unfold accumulate_reward_features.
  rewrite bind_run, accumulate_plain_run, accumulate_discounted_run by done.
  assert (Hrows : length (traj_rows (heap w) trajectory) = length trajectory)
    by apply length_map.
  rewrite (discounted_rows_exact bound _ _ _ _ _ 0%Z Hg Hexact
             (traj_rows_range _ _ Hlive)) by lia.
  reflexivity.
Qed.

(** ** Reachable stores, the constructor and the complexity measure *)

Lemma active_actions_fuel_val s : active_actions (fuel_val s) = active_actions s.
Proof. unfold active_actions. by rewrite fuel_val_track. Qed.

(** Establish and preserve, for steps made with a valid action. *)
Lemma reachable_invariant_valid (P : AugmentedTaxiState → Prop) init w :
  P init →
  (∀ s, P s → P (fuel_val s)) →
  (∀ s action b n, P s → valid_action s action → is_taxi_goal_state s = false →
     dispatch_val action b s = Some n → P (terminal_val (unhook_val s n))) →
  reachable init w →
  ∀ l s, heap w !! l = Some s → P s.
Proof.
  intros Hinit Hfuel Hstep Hr. induction Hr as [|w l0 action w' r Hr IH Hl0 Ht].
  - intros [|l] s; simpl; [by intros [= <-]|done].
  - intros l s Hs.
    destruct (lookup_lt_is_Some_2 _ _ Hl0) as [s0 Hs0].
    destruct (transition_result _ _ _ _ _ _ Hs0 Ht)
      as [(-> & _)|[(-> & _)|(Hv & Hg & _ & [(_ & Hh & _)|(n & Hn & Hh & _)])]];
      [by eapply IH|by eapply IH|..].
    + rewrite Hh in Hs. apply list_lookup_insert_Some in Hs as [(_ & <- & _)|(_ & Hs)].
      * apply Hfuel. by eapply IH.
      * by eapply IH.
    + rewrite Hh in Hs. apply lookup_snoc_Some in Hs as [(_ & Hs)|(_ & <-)].
      * apply list_lookup_insert_Some in Hs as [(_ & <- & _)|(_ & Hs)].
        -- apply Hfuel. by eapply IH.
        -- by eapply IH.
      * unfold next_val in Hn.
        destruct (dispatch_val action _ (fuel_val s0)) as [m|] eqn:Hd; [|done].
        injection Hn as <-. eapply Hstep; [| | |done].
        -- apply Hfuel. by eapply IH.
        -- unfold valid_action. by rewrite active_actions_fuel_val.
        -- by rewrite fuel_val_is_goal.
Qed.

Lemma dispatch_val_track action b s n :
  valid_action s action →
  dispatch_val action b s = Some n →
  track_fuel n = track_fuel s.
Proof.
  intros Hv Hd. apply dispatch_val_fuel in Hd. unfold track_fuel at 1. rewrite Hd.
  destruct (bool_decide (action = "refuel")) eqn:Hr; simpl; [|done].
  apply bool_decide_eq_true in Hr as ->.
  assert (Htr : track_fuel s = true).
  { unfold valid_action, active_actions, BASE_ACTIONS in Hv.
    destruct (track_fuel s); [done|].
    repeat (apply elem_of_cons in Hv as [[=]|Hv]). by apply elem_of_nil in Hv. }
  rewrite Htr. by destruct (fst _).
Qed.

Lemma reachable_track_fuel init w l s :
  reachable init w → heap w !! l = Some s → track_fuel s = track_fuel init.
Proof.
  intros Hr. revert l s.
  apply (reachable_invariant_valid (λ s, track_fuel s = track_fuel init) init w); try done.
  - intros s <-. apply fuel_val_track.
  - intros s action b n <- Hv _ Hd.
    rewrite <- (dispatch_val_track _ _ _ _ Hv Hd).
    unfold track_fuel. by rewrite terminal_val_agent, unhook_val_agent.
Qed.

Lemma unhook_val_length s n :
  length (hotswap_stations (unhook_val s n)) ≤ length (hotswap_stations n).
Proof.
  unfold unhook_val. destruct (_moved_off_of_hotswap_station s n); [|done].
  apply length_delete_le.
Qed.

Lemma reachable_hotswap_bound init w l s :
  reachable init w → heap w !! l = Some s →
  length (hotswap_stations s) ≤ length (hotswap_stations init).
Proof.
  intros Hr. revert l s.
  apply (reachable_invariant
           (λ s, length (hotswap_stations s) ≤ length (hotswap_stations init)) init w);
    try done.
  - intros s. by rewrite fuel_val_hotswap.
  - intros s action b n Hle _ Hd. apply dispatch_val_frame in Hd as (Hhs & _).
    rewrite terminal_val_hotswap. pose proof (unhook_val_length s n) as Hu.
    rewrite Hhs in Hu. simpl in *. lia.
Qed.

(** The first object of the store is the initial state, with the stations
    it was made with. *)
Lemma reachable_init_object init w :
  reachable init w →
  ∃ s0, heap w !! 0 = Some s0 ∧ hotswap_stations s0 = hotswap_stations init.
Proof.
  induction 1 as [|w l0 action w' r Hr (s0 & Hs0 & Hhs) Hl0 Ht]; [by eauto|].
  destruct (lookup_lt_is_Some_2 _ _ Hl0) as [s Hs].
  assert (H0 : 0 < length (heap w)) by by eapply lookup_lt_Some.
  destruct (transition_result _ _ _ _ _ _ Hs Ht)
    as [(-> & _)|[(-> & _)|(_ & _ & _ & [(_ & Hh & _)|(n & _ & Hh & _)])]];
    [by eauto|by eauto|..]; rewrite Hh.
  - destruct (decide (l0 = 0)) as [->|Hne].
    + exists (fuel_val s). rewrite list_lookup_insert_eq by done.
      split; [done|]. rewrite fuel_val_hotswap. congruence.
    + exists s0. by rewrite list_lookup_insert_ne.
  - rewrite lookup_app_l by by rewrite length_insert.
    destruct (decide (l0 = 0)) as [->|Hne].
    + exists (fuel_val s). rewrite list_lookup_insert_eq by done.
      split; [done|]. rewrite fuel_val_hotswap. congruence.
    + exists s0. by rewrite list_lookup_insert_ne.
Qed.

(** X15.  In every reachable store, measure_env_complexity without a state
    gives the number of tolls plus the number of hotswap stations the
    initial state was made with, whatever has been done since; and for
    every state of the store it gives at least the number of tolls and at
    most that initial figure. *)
Theorem complexity_is_bounded_by_the_initial_one init w l s :
  reachable init w →
  heap w !! l = Some s →
  measure_env_complexity 0 None w =
    (w, inr (length (tolls mdp) + length (hotswap_stations init))) ∧
  measure_env_complexity 0 (Some l) w =
    (w, inr (length (tolls mdp) + length (hotswap_stations s))) ∧
  length (tolls mdp) + length (hotswap_stations s) ≤
    length (tolls mdp) + length (hotswap_stations init).
Proof.
  intros Hr Hs.
  destruct (reachable_init_object _ _ Hr) as (s0 & Hs0 & Hhs).
  unfold measure_env_complexity.
  rewrite !bind_run, (get_run _ _ _ Hs0), (get_run _ _ _ Hs), Hhs.
  split; [done|]. split; [done|].
  pose proof (reachable_hotswap_bound _ _ _ _ Hr Hs). lia.
Qed.

(** X16.  For an MDP made by the constructor, in every store reachable from
    its initial state: transition answers an action with a state exactly
    when the action is in the action list the constructor chose; a feature
    whose capability entry in reward_features is false is 0 for every pair
    of states of the store; and the third capability entry is true, like
    the third feature is 1. *)
Theorem constructor_settles_actions_and_capabilities
    width_ height_ agent_ walls_ passengers_ tolls_ traffic_ fuel_stations_
    hotswap_stations_ slip_prob_ gamma_ weights_ inst w l s l2 s2 action :
  inst = AugmentedTaxi2OOMDP_init width_ height_ agent_ walls_ passengers_ tolls_
           traffic_ fuel_stations_ hotswap_stations_ slip_prob_ gamma_ weights_ →
  mdp = inst_mdp inst →
  reachable (inst_init_state inst) w →
  heap w !! l = Some s →
  heap w !! l2 = Some s2 →
  ((∃ w' l', _taxi_transition_func (StateArg l) action w = (w', inr l')) ↔
   action ∈ inst_actions inst) ∧
  ∃ toll_flag hotswap_flag,
    compute_reward_features l action l2 w = (w, inr (toll_flag, hotswap_flag, 1%Z)) ∧
    (fst (fst (inst_reward_features inst)) = false → toll_flag = 0%Z) ∧
    (snd (fst (inst_reward_features inst)) = false → hotswap_flag = 0%Z) ∧
    snd (inst_reward_features inst) = true.
Proof.
  intros -> Hmdp Hr Hs Hs2. simpl in *. split.
  - pose proof (reachable_track_fuel _ _ _ _ Hr Hs) as Htf. rewrite <- Htf.
    fold (active_actions s). split.
    + intros (w' & l' & Ht).
      destruct (decide (action ∈ active_actions s)) as [Hv|Hv]; [done|].
      by rewrite (transition_invalid _ _ _ _ Hs Hv) in Ht.
    + intros Hv. destruct (is_taxi_goal_state s) eqn:Hg.
      * rewrite (transition_goal _ _ _ _ Hs Hv Hg). eauto.
      * rewrite (transition_step _ _ _ _ Hs Hv Hg).
        destruct (next_val action (rng w) s); simpl; eauto.
  - rewrite (compute_reward_features_val _ _ _ _ _ _ Hs Hs2). unfold features_val.
    eexists _, _. split; [reflexivity|]. split; [|split; [|done]].
    + intros Hcap. apply bool_decide_eq_false in Hcap.
      rewrite Hmdp. simpl. rewrite bool_decide_eq_false_2 by lia. done.
    + intros Hcap. apply bool_decide_eq_false in Hcap.
      pose proof (reachable_hotswap_bound _ _ _ _ Hr Hs) as Hle. simpl in Hle.
      rewrite bool_decide_eq_false_2 by lia. done.
Qed.

End Engine.

(** ** The sample configurations, run *)

Ltac by_computation := vm_compute; reflexivity.
Ltac valid_by_computation :=
  unfold valid_action; apply (bool_decide_unpack _); vm_compute; exact I.

(** C1, as stated, fails.  A blocked "up" on the top row returns the input
    object itself (address 0), not a new object; and with fuel tracked a
    pickup lowers the fuel of the caller's state from 5 to 4. *)
Lemma transition_aliases_and_mutates :
  (is_terminal ex_top = false ∧ valid_action ex_top "up" ∧
   _taxi_transition_func ex_mdp ex_draws 1 (StateArg 0) "up" (mkWorld [ex_top] 0)
     = (mkWorld [ex_top] 1, inr 0)) ∧
  (is_terminal ex_fuel = false ∧ valid_action ex_fuel "pickup" ∧
   ∃ w', _taxi_transition_func ex_mdp ex_draws 1 (StateArg 0) "pickup" (mkWorld [ex_fuel] 0)
           = (w', inr 1) ∧
         ag_fuel (agent ex_fuel) = Some 5%Z ∧
         (agent <$> heap w' !! 0) = Some (mkAgent 1 1 0 (Some 4%Z)) ∧
         heap w' !! 0 ≠ Some ex_fuel).
Proof.
  split.
  - split; [done|]. split; [valid_by_computation|by_computation].
  - split; [done|]. split; [valid_by_computation|].
    eexists. split; [by_computation|]. simpl. split; [done|]. split; [done|].
    intros [=].
Qed.

Lemma transition_frame_witness :
  heap (mkWorld [ex_fuel] 0) !! 0 = Some ex_fuel ∧
  valid_action ex_fuel "pickup" ∧
  is_taxi_goal_state ex_fuel = false ∧
  ∃ w' l' s',
    _taxi_transition_func ex_mdp ex_draws 1 (StateArg 0) "pickup" (mkWorld [ex_fuel] 0)
      = (w', inr l') ∧
    heap w' !! l' = Some s' ∧
    heap w' !! 0 = Some (fuel_val 1 ex_fuel) ∧
    (l' = 0 ∨ l' = 1 ∧ heap (mkWorld [ex_fuel] 0) !! l' = None).
Proof.
  assert (Hv : valid_action ex_fuel "pickup") by valid_by_computation.
  split; [reflexivity|]. split; [exact Hv|]. split; [reflexivity|].
  destruct (transition_frame ex_mdp ex_draws 1 (mkWorld [ex_fuel] 0) 0 ex_fuel "pickup"
              eq_refl Hv eq_refl)
    as (w' & l' & s' & Ht & Hs' & Hin & _ & _ & Hl & _).
  exists w', l', s'. repeat split; assumption.
Defined.

(** C2, as stated, fails.  A state whose flags are set but whose passenger
    is not delivered is not absorbing: "up" returns a new object in which
    the agent has moved.  And the flag is not what makes a state absorbing:
    a state whose passenger is delivered is handed back untouched, without
    a draw, although its is_terminal flag is false. *)
Lemma terminal_flag_is_not_consulted :
  (is_terminal ex_flagged = true ∧
   valid_action ex_flagged "up" ∧
   _taxi_transition_func ex_mdp ex_draws 1 (StateArg 0) "up" (mkWorld [ex_flagged] 0)
     = (mkWorld [ex_flagged;
                 mkState (mkAgent 1 2 0 None) [mkPassenger 2 2 3 3 0] [] true true] 1,
        inr 1) ∧
   _taxi_transition_func ex_mdp ex_draws 1 (StateArg 0) "up" (mkWorld [ex_flagged] 0)
     ≠ (mkWorld [ex_flagged] 0, inr 0)) ∧
  (is_terminal ex_home = false ∧
   ∀ action, valid_action ex_home action →
     _taxi_transition_func ex_mdp ex_draws 1 (StateArg 0) action (mkWorld [ex_home] 0)
       = (mkWorld [ex_home] 0, inr 0)).
Proof.
  split.
  - split; [done|]. split; [valid_by_computation|].
    split; [by_computation|]. vm_compute. intros [=].
  - split; [done|]. intros action Hv.
    by apply (transition_goal ex_mdp ex_draws 1 _ _ ex_home).
Qed.

Lemma reachable_delivered :
  reachable ex_mdp ex_draws 1 ex_arrived (mkWorld [ex_arrived; ex_delivered] 1).
Proof.
  apply (reach_call ex_mdp ex_draws 1 ex_arrived (mkWorld [ex_arrived] 0) 0 "dropoff"
           _ (inr 1)).
  - apply reach_init.
  - simpl. lia.
  - by_computation.
Defined.

Lemma terminal_state_absorbing_witness :
  flagged_goal ex_arrived ∧
  reachable ex_mdp ex_draws 1 ex_arrived (mkWorld [ex_arrived; ex_delivered] 1) ∧
  heap (mkWorld [ex_arrived; ex_delivered] 1) !! 1 = Some ex_delivered ∧
  valid_action ex_delivered "up" ∧
  is_terminal ex_delivered = true ∧
  is_taxi_goal_state ex_delivered = true ∧
  _taxi_transition_func ex_mdp ex_draws 1 (StateArg 1) "up" (mkWorld [ex_arrived; ex_delivered] 1)
    = (mkWorld [ex_arrived; ex_delivered] 1, inr 1).
Proof.
  assert (Hf : flagged_goal ex_arrived) by (intros H; discriminate H).
  assert (Hv : valid_action ex_delivered "up") by valid_by_computation.
  split; [exact Hf|]. split; [exact reachable_delivered|].
  split; [reflexivity|]. split; [exact Hv|]. split; [reflexivity|].
  exact (terminal_state_absorbing ex_mdp ex_draws 1 ex_arrived _ 1 ex_delivered "up"
           Hf reachable_delivered eq_refl Hv eq_refl).
Defined.

(** C3, as stated, fails.  With two passengers at the agent's cell, pickup
    sets in_taxi = 1 on both, not on the first only; the state that
    transition returns has two passengers with in_taxi == 1 while
    has_passenger is 1. *)
Lemma pickup_takes_both :
  ag_has_passenger (agent ex_two) = 0%Z ∧
  agent_pickup 0 (mkWorld [ex_two] 0) = (mkWorld [ex_two; ex_two_picked] 0, inr 1) ∧
  _taxi_transition_func ex_mdp ex_draws 1 (StateArg 0) "pickup" (mkWorld [ex_two] 0)
    = (mkWorld [ex_two; ex_two_picked] 1, inr 1) ∧
  p_in_taxi <$> passengers ex_two_picked = [1%Z; 1%Z] ∧
  in_taxi_count ex_two_picked = 2 ∧
  ag_has_passenger (agent ex_two_picked) = 1%Z.
Proof. repeat split; by_computation. Qed.

Lemma reachable_two_picked :
  reachable ex_mdp ex_draws 1 ex_two (mkWorld [ex_two; ex_two_picked] 1).
Proof.
  apply (reach_call ex_mdp ex_draws 1 ex_two (mkWorld [ex_two] 0) 0 "pickup" _ (inr 1)).
  - apply reach_init.
  - simpl. lia.
  - by_computation.
Defined.

Lemma pickup_takes_every_colocated_witness :
  heap (mkWorld [ex_two] 0) !! 0 = Some ex_two ∧
  ag_has_passenger (agent ex_two) = 0%Z ∧
  passenger_inv ex_two ∧
  (∃ s', agent_pickup 0 (mkWorld [ex_two] 0) = (mkWorld ([ex_two] ++ [s']) 0, inr 1) ∧
         p_in_taxi <$> passengers s' = [1%Z; 1%Z]) ∧
  ag_has_passenger (agent ex_two_picked) =
    if bool_decide (in_taxi_count ex_two_picked = 0) then 0%Z else 1%Z.
Proof.
  split; [reflexivity|]. split; [reflexivity|]. split; [reflexivity|]. split.
  - destruct (proj1 (pickup_takes_every_colocated ex_mdp ex_draws 1
                       (mkWorld [ex_two] 0) 0 ex_two eq_refl) eq_refl)
      as (s' & Hrun & Hps & _).
    exists s'. split; [exact Hrun|]. rewrite Hps. reflexivity.
  - exact (proj2 (pickup_takes_every_colocated ex_mdp ex_draws 1
                    (mkWorld [ex_two; ex_two_picked] 1) 1 ex_two_picked eq_refl)
                 ex_two eq_refl reachable_two_picked).
Defined.

(** C4, as stated, fails.  A state whose flags are not set and whose only
    passenger is already at its destination is handed back as it is: every
    passenger of the returned state is delivered, yet is_terminal and
    is_goal are false.  And a state that is not a goal state keeps flags
    that were set before the call: the returned state is flagged although
    its passenger is not delivered. *)
Lemma goal_state_is_not_marked :
  (is_terminal ex_home = false ∧
   valid_action ex_home "up" ∧
   _taxi_transition_func ex_mdp ex_draws 1 (StateArg 0) "up" (mkWorld [ex_home] 0)
     = (mkWorld [ex_home] 0, inr 0) ∧
   (∀ p, p ∈ passengers ex_home →
         p_x p = p_dest_x p ∧ p_y p = p_dest_y p ∧ p_in_taxi p = 0%Z) ∧
   ¬ (is_terminal ex_home = true ∧ is_goal ex_home = true)) ∧
  (is_taxi_goal_state ex_flagged = false ∧
   valid_action ex_flagged "up" ∧
   ∃ w' s',
     _taxi_transition_func ex_mdp ex_draws 1 (StateArg 0) "up" (mkWorld [ex_flagged] 0)
       = (w', inr 1) ∧
     heap w' !! 1 = Some s' ∧
     (is_terminal s' = true ∧ is_goal s' = true) ∧
     ¬ (∀ p, p ∈ passengers s' →
             p_x p = p_dest_x p ∧ p_y p = p_dest_y p ∧ p_in_taxi p = 0%Z)).
Proof.
  split.
  - split; [done|]. split; [valid_by_computation|]. split; [by_computation|].
    split; [by apply is_taxi_goal_state_spec|]. by intros [? _].
  - split; [done|]. split; [valid_by_computation|].
    eexists _, _. split; [by_computation|]. split; [reflexivity|].
    split; [done|]. intros H.
    destruct (H (mkPassenger 2 2 3 3 0)) as [Hx _]; [apply list_elem_of_here|].
    discriminate Hx.
Qed.

Lemma goal_marking_witness :
  heap (mkWorld [ex_arrived] 0) !! 0 = Some ex_arrived ∧
  valid_action ex_arrived "dropoff" ∧
  is_terminal ex_arrived = false ∧
  is_taxi_goal_state ex_arrived = false ∧
  ∃ w' l' s',
    _taxi_transition_func ex_mdp ex_draws 1 (StateArg 0) "dropoff" (mkWorld [ex_arrived] 0)
      = (w', inr l') ∧
    heap w' !! l' = Some s' ∧
    ((is_terminal s' = true ∧ is_goal s' = true) ↔
     (∀ p, p ∈ passengers s' →
           p_x p = p_dest_x p ∧ p_y p = p_dest_y p ∧ p_in_taxi p = 0%Z)).
Proof.
  assert (Hv : valid_action ex_arrived "dropoff") by valid_by_computation.
  split; [reflexivity|]. split; [exact Hv|]. split; [reflexivity|]. split; [reflexivity|].
  exact (goal_marking ex_mdp ex_draws 1 (mkWorld [ex_arrived] 0) 0 ex_arrived "dropoff"
           eq_refl Hv eq_refl eq_refl).
Defined.

(** C5, as stated, fails.  A state whose is_terminal flag is not set but
    whose only passenger is already at its destination is handed back at
    once.  No draw is made: the position in the stream of draws is still 0,
    where the stuck draw on that state would have moved it to 1.  And
    "pickup", a valid action, reaches no effect function: agent_pickup on
    the same store returns a fresh copy at address 1, while transition
    returns the input object and leaves a store of one state. *)
Lemma unflagged_goal_state_makes_no_draw :
  is_terminal ex_home = false ∧
  valid_action ex_home "pickup" ∧
  _taxi_transition_func ex_mdp ex_draws 1 (StateArg 0) "pickup" (mkWorld [ex_home] 0)
    = (mkWorld [ex_home] 0, inr 0) ∧
  draw_stuck ex_mdp ex_draws ex_home (mkWorld [ex_home] 0)
    = (mkWorld [ex_home] 1, inr false) ∧
  (∀ stuck, dispatch ex_mdp 0 "pickup" stuck (mkWorld [ex_home] 0)
            = agent_pickup 0 (mkWorld [ex_home] 0)) ∧
  agent_pickup 0 (mkWorld [ex_home] 0) = (mkWorld [ex_home; ex_home] 0, inr 1).
Proof.
  split; [done|]. split; [valid_by_computation|]. split; [by_computation|].
  split; [by_computation|]. split; [by intros []|]. by_computation.
Qed.

Lemma stuck_blocks_navigation_only_witness :
  heap (mkWorld [ex_station] 0) !! 0 = Some ex_station ∧
  is_taxi_goal_state ex_station = false ∧
  ∃ stuck used,
    draw_stuck ex_jam ex_draws ex_station (mkWorld [ex_station] 0)
      = (mkWorld [ex_station] (0 + used), inr stuck) ∧
    (∀ b, dispatch ex_jam 0 "pickup" b (mkWorld [ex_station] 0)
          = agent_pickup 0 (mkWorld [ex_station] 0)).
Proof.
  split; [reflexivity|]. split; [reflexivity|].
  destruct (stuck_blocks_navigation_only ex_jam ex_draws 1 (mkWorld [ex_station] 0) 0
              ex_station eq_refl eq_refl)
    as (stuck & used & _ & _ & Hdraw & _ & Hdisp & _).
  exists stuck, used. split; [exact Hdraw|].
  intros b. exact (proj1 (Hdisp b)).
Defined.

(** On the traffic cell the second draw (1/2 < 1) makes the taxi stuck:
    "right" hands the input state back after two draws. *)
Example stuck_on_traffic_cell :
  _taxi_transition_func ex_jam ex_draws 1 (StateArg 0) "right" (mkWorld [ex_station] 0)
    = (mkWorld [ex_station] 2, inr 0) ∧
  _taxi_transition_func ex_mdp ex_draws 1 (StateArg 0) "right" (mkWorld [ex_station] 0)
    = (mkWorld [ex_station; ex_station_left] 1, inr 1).
Proof. split; by_computation. Qed.

Lemma reward_is_weighted_features_witness :
  heap (mkWorld [ex_station; ex_station_left] 0) !! 0 = Some ex_station ∧
  heap (mkWorld [ex_station; ex_station_left] 0) !! 1 = Some ex_station_left ∧
  valid_action ex_station "right" ∧
  ∃ toll_flag hotswap_flag : Z,
    compute_reward_features ex_mdp 0 "right" 1 (mkWorld [ex_station; ex_station_left] 0)
      = (mkWorld [ex_station; ex_station_left] 0, inr (toll_flag, hotswap_flag, 1%Z)) ∧
    (tolls ex_mdp = [] → toll_flag = 0%Z).
Proof.
  assert (Hv : valid_action ex_station "right") by valid_by_computation.
  split; [reflexivity|]. split; [reflexivity|]. split; [exact Hv|].
  destruct (reward_is_weighted_features ex_mdp (mkWorld [ex_station; ex_station_left] 0)
              0 1 ex_station ex_station_left "right" eq_refl eq_refl Hv)
    as (toll_flag & hotswap_flag & Hf & _ & _ & Hnone & _).
  exists toll_flag, hotswap_flag. split; [exact Hf|exact Hnone].
Defined.

(** Leaving the station at (1,1) for the toll cell costs the hotswap
    weight and the step weight; leaving the toll cell costs the toll weight
    and the step weight. *)
Example reward_samples :
  compute_reward_features ex_mdp 0 "right" 1 (mkWorld [ex_station; ex_station_left] 0)
    = (mkWorld [ex_station; ex_station_left] 0, inr (0, 1, 1)%Z) ∧
  _taxi_reward_func ex_mdp (StateArg 0) "right" 1 (mkWorld [ex_station; ex_station_left] 0)
    = (mkWorld [ex_station; ex_station_left] 0, inr (Q2Qc (-9 # 10))) ∧
  compute_reward_features ex_mdp 1 "left" 0 (mkWorld [ex_station; ex_station_left] 0)
    = (mkWorld [ex_station; ex_station_left] 0, inr (1, 0, 1)%Z) ∧
  _taxi_reward_func ex_mdp (StateArg 1) "left" 0 (mkWorld [ex_station; ex_station_left] 0)
    = (mkWorld [ex_station; ex_station_left] 0, inr (Q2Qc (3 # 2))).
Proof.
  repeat split; try by_computation;
    unfold _taxi_reward_func; rewrite bind_run; vm_compute;
    do 2 f_equal; apply Qc_is_canon; reflexivity.
Qed.

(** Without fuel tracking "refuel" is not an action: the call raises
    ValueError and the store is as it was. *)
Example refuel_needs_fuel_tracking :
  heap (mkWorld [ex_top] 0) !! 0 = Some ex_top ∧
  track_fuel ex_top = false ∧
  ("refuel" ∉ BASE_ACTIONS) ∧
  (∃ w', _taxi_transition_func ex_mdp ex_draws 1 (StateArg 0) "refuel" (mkWorld [ex_top] 0)
           = (w', inl ValueError)) ∧
  (∀ w' e, _taxi_transition_func ex_mdp ex_draws 1 (StateArg 0) "refuel" (mkWorld [ex_top] 0)
             = (w', inl e) → e = ValueError ∧ w' = mkWorld [ex_top] 0).
Proof.
  assert (Hn : "refuel" ∉ BASE_ACTIONS).
  { apply (bool_decide_unpack _). vm_compute. exact I. }
  split; [reflexivity|]. split; [reflexivity|]. split; [exact Hn|].
  destruct (invalid_action_raises ex_mdp ex_draws 1 (mkWorld [ex_top] 0) 0 0 ex_top ex_top
              "refuel" eq_refl eq_refl) as (Hiff & _ & Hraise & _).
  split; [exact (proj2 Hiff Hn)|exact Hraise].
Qed.

Lemma hotswap_stations_never_grow_witness :
  heap (mkWorld [ex_station] 0) !! 0 = Some ex_station ∧
  trajectory ex_mdp ex_draws 1 (mkWorld [ex_station] 0) 0
             (mkWorld [ex_station; ex_station_left] 1) 1 ∧
  ∃ s', heap (mkWorld [ex_station; ex_station_left] 1) !! 1 = Some s' ∧
        length (hotswap_stations s') ≤ length (hotswap_stations ex_station).
Proof.
  assert (Htr : trajectory ex_mdp ex_draws 1 (mkWorld [ex_station] 0) 0
                           (mkWorld [ex_station; ex_station_left] 1) 1).
  { apply (traj_step ex_mdp ex_draws 1 _ _ (mkWorld [ex_station] 0) 0 _ _ "right").
    - apply traj_here.
    - by_computation. }
  split; [reflexivity|]. split; [exact Htr|].
  exact (proj1 (hotswap_stations_never_grow ex_mdp ex_draws 1 (mkWorld [ex_station] 0) 0
                  ex_station eq_refl) _ _ Htr).
Defined.

Lemma agent_stays_in_bounds_witness :
  in_bounds ex_mdp ex_top ∧
  reachable ex_mdp ex_draws 1 ex_top (mkWorld [ex_top] 0) ∧
  heap (mkWorld [ex_top] 0) !! 0 = Some ex_top ∧
  (1 ≤ get_agent_x ex_top ≤ width ex_mdp)%Z ∧
  (1 ≤ get_agent_y ex_top ≤ height ex_mdp)%Z ∧
  (∀ w' l' s',
     _taxi_transition_func ex_mdp ex_draws 1 (StateArg 0) "up" (mkWorld [ex_top] 0) = (w', inr l') →
     heap w' !! l' = Some s' →
     get_agent_x s' = get_agent_x ex_top ∧ get_agent_y s' = get_agent_y ex_top).
Proof.
  assert (Hb : in_bounds ex_mdp ex_top) by (vm_compute; intuition discriminate).
  assert (Hr : reachable ex_mdp ex_draws 1 ex_top (mkWorld [ex_top] 0))
    by apply reach_init.
  split; [exact Hb|]. split; [exact Hr|]. split; [reflexivity|].
  destruct (agent_stays_in_bounds ex_mdp ex_draws 1 ex_top (mkWorld [ex_top] 0) 0 ex_top
              Hb Hr eq_refl) as (Hx & Hy & Hrej).
  split; [exact Hx|]. split; [exact Hy|].
  intros w' l' s'. apply (Hrej "up" 0%Z 1%Z); [reflexivity|].
  left. vm_compute. intros [_ [_ H]]. apply H. reflexivity.
Defined.

(** C10, as stated, fails.  With has_passenger == 1 and no passenger whose
    in_taxi is 1, agent_dropoff leaves has_passenger at 1. *)
Lemma dropoff_keeps_has_passenger :
  ag_has_passenger (agent ex_ghost) = 1%Z ∧
  agent_dropoff 0 (mkWorld [ex_ghost] 0) = (mkWorld [ex_ghost; ex_ghost] 0, inr 1) ∧
  ag_has_passenger (agent ex_ghost) ≠ 0%Z.
Proof. split; [done|]. split; [by_computation|done]. Qed.

Lemma dropoff_frame_witness :
  heap (mkWorld [ex_arrived] 0) !! 0 = Some ex_arrived ∧
  ∃ s',
    agent_dropoff 0 (mkWorld [ex_arrived] 0)
      = (mkWorld ([ex_arrived] ++ [s']) 0, inr 1) ∧
    hotswap_stations s' = hotswap_stations ex_arrived ∧
    is_terminal s' = is_terminal ex_arrived.
Proof.
  split; [reflexivity|].
  destruct (dropoff_frame (mkWorld [ex_arrived] 0) 0 ex_arrived eq_refl)
    as (s' & Hrun & _ & _ & _ & _ & _ & _ & Hhs & Hterm & _).
  exists s'. split; [exact Hrun|]. split; [exact Hhs|exact Hterm].
Defined.

(** The end-to-end run of the 3x3 grid: pickup, right, right, up, up,
    dropoff.  The passenger rides with the taxi to (3,3) and the last state
    is terminal and goal; each of the six calls makes a new state object,
    and the initial state is as it was. *)
Example end_to_end_run :
  ∃ w',
    run_actions ex_mdp ex_draws 1
      ["pickup"; "right"; "right"; "up"; "up"; "dropoff"] 0 (mkWorld [ex_start] 0)
      = (w', inr 6) ∧
    heap w' !! 0 = Some ex_start ∧
    heap w' !! 1 = Some (mkState (mkAgent 1 1 1 None) [mkPassenger 1 1 3 3 1] [] false false) ∧
    heap w' !! 5 = Some (mkState (mkAgent 3 3 1 None) [mkPassenger 3 3 3 3 1] [] false false) ∧
    heap w' !! 6 = Some (mkState (mkAgent 3 3 0 None) [mkPassenger 3 3 3 3 0] [] true true).
Proof. eexists. split; [by_computation|]. repeat split. Qed.

(** ** The further properties on the sample configurations *)

Lemma move_there_and_back_witness :
  heap (mkWorld [ex_station] 0) !! 0 = Some ex_station ∧
  _is_wall_in_the_way ex_mdp ex_station 1 0 = false ∧
  move_agent ex_mdp 0 1 0 (mkWorld [ex_station] 0)
    = (mkWorld [ex_station; ex_station_moved] 0, inr 1) ∧
  _is_wall_in_the_way ex_mdp ex_station_moved (- 1) (- 0) = false ∧
  ∃ w2 l2,
    move_agent ex_mdp 1 (- 1) (- 0) (mkWorld [ex_station; ex_station_moved] 0)
      = (w2, inr l2) ∧
    heap w2 !! l2 = Some ex_station.
Proof.
  assert (Hm : move_agent ex_mdp 0 1 0 (mkWorld [ex_station] 0)
               = (mkWorld [ex_station; ex_station_moved] 0, inr 1)) by by_computation.
  split; [reflexivity|]. split; [reflexivity|]. split; [exact Hm|].
  split; [reflexivity|].
  destruct (move_there_and_back ex_mdp (mkWorld [ex_station] 0) 0 ex_station 1 0
              _ 1 ex_station_moved eq_refl eq_refl Hm eq_refl eq_refl)
    as (w2 & l2 & Hback & _ & _ & Hs & _).
  exists w2, l2. split; [exact Hback|exact Hs].
Defined.

Lemma ex_two_nobody_rides : ∀ p, p ∈ passengers ex_two → p_in_taxi p = 0%Z.
Proof.
  intros p Hp. simpl in Hp.
  repeat (apply elem_of_cons in Hp as [->|Hp]; [reflexivity|]).
  by apply elem_of_nil in Hp.
Defined.

Lemma pickup_then_dropoff_restores_witness :
  heap (mkWorld [ex_two] 0) !! 0 = Some ex_two ∧
  ag_has_passenger (agent ex_two) = 0%Z ∧
  (∀ p, p ∈ passengers ex_two → p_in_taxi p = 0%Z) ∧
  ∃ w1 l1 w2 l2,
    agent_pickup 0 (mkWorld [ex_two] 0) = (w1, inr l1) ∧
    agent_dropoff l1 w1 = (w2, inr l2) ∧
    heap w2 !! l2 = Some ex_two.
Proof.
  split; [reflexivity|]. split; [reflexivity|]. split; [exact ex_two_nobody_rides|].
  destruct (pickup_then_dropoff_restores (mkWorld [ex_two] 0) 0 ex_two
              eq_refl eq_refl ex_two_nobody_rides)
    as (w1 & l1 & w2 & l2 & H1 & H2 & H3 & _).
  exists w1, l1, w2, l2. split; [exact H1|]. split; [exact H2|exact H3].
Defined.

Lemma ex_two_riders_aboard : riders_aboard ex_two.
Proof.
  intros p Hp Hride. rewrite (ex_two_nobody_rides p Hp) in Hride. discriminate Hride.
Defined.

Lemma riding_passengers_travel_with_the_taxi_witness :
  riders_aboard ex_two ∧
  reachable ex_mdp ex_draws 1 ex_two (mkWorld [ex_two; ex_two_picked] 1) ∧
  heap (mkWorld [ex_two; ex_two_picked] 1) !! 1 = Some ex_two_picked ∧
  mkPassenger 1 1 2 2 1 ∈ passengers ex_two_picked ∧
  p_in_taxi (mkPassenger 1 1 2 2 1) = 1%Z ∧
  p_x (mkPassenger 1 1 2 2 1) = get_agent_x ex_two_picked ∧
  p_y (mkPassenger 1 1 2 2 1) = get_agent_y ex_two_picked.
Proof.
  assert (Hin : mkPassenger 1 1 2 2 1 ∈ passengers ex_two_picked)
    by (apply list_elem_of_further, list_elem_of_here).
  split; [exact ex_two_riders_aboard|]. split; [exact reachable_two_picked|].
  split; [reflexivity|]. split; [exact Hin|]. split; [reflexivity|].
  exact (riding_passengers_travel_with_the_taxi ex_mdp ex_draws 1 ex_two _ 1
           ex_two_picked _ ex_two_riders_aboard reachable_two_picked eq_refl Hin eq_refl).
Defined.

Lemma refuel_fills_to_capacity_witness :
  heap (mkWorld [ex_fuel] 0) !! 0 = Some ex_fuel ∧
  fst (at_fuel_station ex_mdp (get_agent_x ex_fuel) (get_agent_y ex_fuel)) = true ∧
  ∃ s',
    agent_refuel ex_mdp 0 (mkWorld [ex_fuel] 0)
      = (mkWorld ([ex_fuel] ++ [s']) 0, inr 1) ∧
    ag_fuel (agent s') = Some 10%Z.
Proof.
  split; [reflexivity|]. split; [reflexivity|].
  destruct (refuel_fills_to_capacity ex_mdp (mkWorld [ex_fuel] 0) 0 ex_fuel eq_refl)
    as (s' & Hrun & _ & Hfull & _).
  exists s'. split; [exact Hrun|]. exact (proj1 (Hfull eq_refl)).
Defined.

Lemma every_step_costs_fuel_witness :
  heap (mkWorld [ex_fuel] 0) !! 0 = Some ex_fuel ∧
  valid_action ex_fuel "pickup" ∧
  is_taxi_goal_state ex_fuel = false ∧
  ag_fuel (agent ex_fuel) = Some 5%Z ∧
  ∃ w' l' s',
    _taxi_transition_func ex_mdp ex_draws 1 (StateArg 0) "pickup" (mkWorld [ex_fuel] 0)
      = (w', inr l') ∧
    heap w' !! l' = Some s' ∧
    ag_fuel (agent s') = Some 4%Z ∧
    (ag_fuel ∘ agent <$> heap w' !! 0) = Some (Some 4%Z).
Proof.
  assert (Hv : valid_action ex_fuel "pickup") by valid_by_computation.
  split; [reflexivity|]. split; [exact Hv|]. split; [reflexivity|]. split; [reflexivity|].
  exact (every_step_costs_fuel ex_mdp ex_draws 1 (mkWorld [ex_fuel] 0) 0 ex_fuel
           "pickup" 5 eq_refl Hv eq_refl eq_refl).
Defined.

Lemma trajectory_station_left :
  trajectory ex_mdp ex_draws 1 (mkWorld [ex_station] 0) 0
             (mkWorld [ex_station; ex_station_left] 1) 1.
Proof.
  apply (traj_step ex_mdp ex_draws 1 _ _ (mkWorld [ex_station] 0) 0 _ _ "right").
  - apply traj_here.
  - by_computation.
Defined.

Lemma accepted_actions_are_stable_witness :
  heap (mkWorld [ex_station] 0) !! 0 = Some ex_station ∧
  trajectory ex_mdp ex_draws 1 (mkWorld [ex_station] 0) 0
             (mkWorld [ex_station; ex_station_left] 1) 1 ∧
  ∃ s', heap (mkWorld [ex_station; ex_station_left] 1) !! 1 = Some s' ∧
        track_fuel s' = track_fuel ex_station.
Proof.
  split; [reflexivity|]. split; [exact trajectory_station_left|].
  destruct (accepted_actions_are_stable ex_mdp ex_draws 1 (mkWorld [ex_station] 0) 0
              ex_station _ 1 eq_refl trajectory_station_left) as (s' & Hs' & Htf & _).
  exists s'. split; [exact Hs'|exact Htf].
Defined.

Lemma transition_is_safe_witness :
  heap (mkWorld [ex_top] 0) !! 0 = Some ex_top ∧
  _taxi_transition_func ex_mdp ex_draws 1 (StateArg 0) "refuel" (mkWorld [ex_top] 0)
    = (mkWorld [ex_top] 0, inl ValueError) ∧
  length (heap (mkWorld [ex_top] 0)) ≤ length (heap (mkWorld [ex_top] 0))
    ≤ S (length (heap (mkWorld [ex_top] 0))).
Proof.
  assert (Ht : _taxi_transition_func ex_mdp ex_draws 1 (StateArg 0) "refuel"
                 (mkWorld [ex_top] 0) = (mkWorld [ex_top] 0, inl ValueError))
    by by_computation.
  split; [reflexivity|]. split; [exact Ht|].
  exact (proj1 (proj2 (transition_is_safe ex_mdp ex_draws 1 (mkWorld [ex_top] 0) 0
                         ex_top "refuel" _ _ eq_refl Ht))).
Defined.

Lemma only_dropoff_reaches_the_goal_witness :
  heap (mkWorld [ex_arrived] 0) !! 0 = Some ex_arrived ∧
  is_taxi_goal_state ex_arrived = false ∧
  _taxi_transition_func ex_mdp ex_draws 1 (StateArg 0) "dropoff" (mkWorld [ex_arrived] 0)
    = (mkWorld [ex_arrived; ex_delivered] 1, inr 1) ∧
  heap (mkWorld [ex_arrived; ex_delivered] 1) !! 1 = Some ex_delivered ∧
  is_taxi_goal_state ex_delivered = true ∧
  "dropoff" = "dropoff".
Proof.
  assert (Ht : _taxi_transition_func ex_mdp ex_draws 1 (StateArg 0) "dropoff"
                 (mkWorld [ex_arrived] 0)
               = (mkWorld [ex_arrived; ex_delivered] 1, inr 1)) by by_computation.
  split; [reflexivity|]. split; [reflexivity|]. split; [exact Ht|].
  split; [reflexivity|]. split; [reflexivity|].
  exact (only_dropoff_reaches_the_goal ex_mdp ex_draws 1 (mkWorld [ex_arrived] 0) 0
           ex_arrived "dropoff" _ 1 ex_delivered eq_refl eq_refl Ht eq_refl
           (or_introl eq_refl)).
Defined.

Lemma navigation_moves_one_cell_witness :
  heap (mkWorld [ex_station] 0) !! 0 = Some ex_station ∧
  is_taxi_goal_state ex_station = false ∧
  nav_delta "right" = Some (1, 0)%Z ∧
  traffic_cells ex_mdp = [] ∧
  (slip_prob ex_mdp ≤ ex_draws 0)%Qc ∧
  in_grid ex_mdp (get_agent_x ex_station + 1) (get_agent_y ex_station + 0) ∧
  _is_wall_in_the_way ex_mdp ex_station 1 0 = false ∧
  ∃ w' s',
    _taxi_transition_func ex_mdp ex_draws 1 (StateArg 0) "right" (mkWorld [ex_station] 0)
      = (w', inr 1) ∧
    heap w' !! 1 = Some s' ∧
    get_agent_x s' = 2%Z ∧ get_agent_y s' = 1%Z.
Proof.
  assert (Hslip : (slip_prob ex_mdp ≤ ex_draws 0)%Qc) by (vm_compute; discriminate).
  assert (Hgrid : in_grid ex_mdp (get_agent_x ex_station + 1) (get_agent_y ex_station + 0))
    by (vm_compute; intuition discriminate).
  split; [reflexivity|]. split; [reflexivity|]. split; [reflexivity|].
  split; [reflexivity|]. split; [exact Hslip|]. split; [exact Hgrid|].
  split; [reflexivity|].
  destruct (navigation_moves_one_cell ex_mdp ex_draws 1 (mkWorld [ex_station] 0) 0
              ex_station "right" 1 0 eq_refl eq_refl eq_refl eq_refl Hslip Hgrid eq_refl)
    as (w' & s' & Ht & Hs' & Hx & Hy & _).
  exists w', s'. split; [exact Ht|]. split; [exact Hs'|]. split; [exact Hx|exact Hy].
Defined.

Lemma staying_put_earns_the_step_weight_witness :
  heap (mkWorld [ex_top] 0) !! 0 = Some ex_top ∧
  get_agent_x ex_top = get_agent_x ex_top ∧
  get_agent_y ex_top = get_agent_y ex_top ∧
  valid_action ex_top "up" ∧
  compute_reward_features ex_mdp 0 "up" 0 (mkWorld [ex_top] 0)
    = (mkWorld [ex_top] 0, inr (0, 0, 1)%Z) ∧
  _taxi_reward_func ex_mdp (StateArg 0) "up" 0 (mkWorld [ex_top] 0)
    = (mkWorld [ex_top] 0, inr (snd (weights ex_mdp))).
Proof.
  assert (Hv : valid_action ex_top "up") by valid_by_computation.
  split; [reflexivity|]. split; [reflexivity|]. split; [reflexivity|]. split; [exact Hv|].
  exact (staying_put_earns_the_step_weight ex_mdp (mkWorld [ex_top] 0) 0 0 ex_top ex_top
           "up" eq_refl eq_refl eq_refl eq_refl Hv).
Defined.

Lemma hotswap_feature_reports_removal_witness :
  heap (mkWorld [ex_station] 0) !! 0 = Some ex_station ∧
  _taxi_transition_func ex_mdp ex_draws 1 (StateArg 0) "right" (mkWorld [ex_station] 0)
    = (mkWorld [ex_station; ex_station_left] 1, inr 1) ∧
  ∃ s' toll_flag hotswap_flag,
    heap (mkWorld [ex_station; ex_station_left] 1) !! 1 = Some s' ∧
    compute_reward_features ex_mdp 0 "right" 1 (mkWorld [ex_station; ex_station_left] 1)
      = (mkWorld [ex_station; ex_station_left] 1, inr (toll_flag, hotswap_flag, 1%Z)) ∧
    (hotswap_flag = 1%Z ↔
       S (length (hotswap_stations s')) = length (hotswap_stations ex_station)).
Proof.
  assert (Ht : _taxi_transition_func ex_mdp ex_draws 1 (StateArg 0) "right"
                 (mkWorld [ex_station] 0)
               = (mkWorld [ex_station; ex_station_left] 1, inr 1)) by by_computation.
  split; [reflexivity|]. split; [exact Ht|].
  destruct (hotswap_feature_reports_removal ex_mdp ex_draws 1 (mkWorld [ex_station] 0) 0
              ex_station "right" _ 1 eq_refl Ht)
    as (s' & t & h & Hs' & Hf & Hone & _).
  exists s', t, h. split; [exact Hs'|]. split; [exact Hf|exact Hone].
Defined.

Lemma ex_round_trip_live :
  live_trajectory (mkWorld [ex_station; ex_station_left] 0) ex_round_trip.
Proof.
  repeat (apply Forall_cons; split; [split; eexists; reflexivity|]).
  apply Forall_nil_2.
Defined.

(** Exact rationals have the three facts of [exact_on_integers], for
    every bound. *)
Lemma rationals_exact_on_integers bound :
  exact_on_integers Qc Z2Qc Qcplus Qcmult Qcpower bound.
Proof.
  split; [|split].
  - intros k. rewrite Z2Qc_1. apply Qcpower_1.
  - intros z. rewrite Z2Qc_1. ring.
  - intros a b _ _ _. by rewrite Z2Qc_add.
Qed.

Lemma accumulated_features_count_steps_witness :
  live_trajectory (mkWorld [ex_station; ex_station_left] 0) ex_round_trip ∧
  ∃ tolls_left stations_left : Z,
    accumulate_reward_features ex_mdp Qc Z2Qc Qcplus Qcmult Qcpower (Q2Qc (99 # 100))
      ex_round_trip false (mkWorld [ex_station; ex_station_left] 0)
      = (mkWorld [ex_station; ex_station_left] 0,
         inr (Z2Qc tolls_left, Z2Qc stations_left,
              Z2Qc (Z.of_nat (length ex_round_trip)))).
Proof.
  split; [exact ex_round_trip_live|].
  destruct (accumulated_features_count_steps ex_mdp Qc Z2Qc Qcplus Qcmult Qcpower
              (Q2Qc (99 # 100)) _ _ ex_round_trip_live) as (t & h & Hrun & _).
  exists t, h. exact Hrun.
Defined.

Lemma accumulated_features_of_a_concatenation_witness :
  live_trajectory (mkWorld [ex_station; ex_station_left] 0) ex_round_trip ∧
  ∃ row1 row2 : Z * Z * Z,
    accumulate_reward_features ex_mdp Qc Z2Qc Qcplus Qcmult Qcpower (Q2Qc (99 # 100))
      ex_round_trip false (mkWorld [ex_station; ex_station_left] 0)
      = (mkWorld [ex_station; ex_station_left] 0, inr (to_float Qc Z2Qc row1)) ∧
    accumulate_reward_features ex_mdp Qc Z2Qc Qcplus Qcmult Qcpower (Q2Qc (99 # 100))
      ex_round_trip false (mkWorld [ex_station; ex_station_left] 0)
      = (mkWorld [ex_station; ex_station_left] 0, inr (to_float Qc Z2Qc row2)) ∧
    accumulate_reward_features ex_mdp Qc Z2Qc Qcplus Qcmult Qcpower (Q2Qc (99 # 100))
      (ex_round_trip ++ ex_round_trip) false (mkWorld [ex_station; ex_station_left] 0)
      = (mkWorld [ex_station; ex_station_left] 0,
         inr (to_float Qc Z2Qc (zadd row1 row2))).
Proof.
  split; [exact ex_round_trip_live|].
  exact (accumulated_features_of_a_concatenation ex_mdp Qc Z2Qc Qcplus Qcmult Qcpower
           (Q2Qc (99 # 100)) _ _ _ ex_round_trip_live ex_round_trip_live).
Defined.

Lemma discount_one_is_no_discount_witness :
  Z2Qc 1 = Z2Qc 1 ∧
  exact_on_integers Qc Z2Qc Qcplus Qcmult Qcpower 2 ∧
  (Z.of_nat (length ex_round_trip) ≤ 2)%Z ∧
  live_trajectory (mkWorld [ex_station; ex_station_left] 0) ex_round_trip ∧
  accumulate_reward_features ex_mdp Qc Z2Qc Qcplus Qcmult Qcpower (Z2Qc 1)
    ex_round_trip true (mkWorld [ex_station; ex_station_left] 0) =
  accumulate_reward_features ex_mdp Qc Z2Qc Qcplus Qcmult Qcpower (Z2Qc 1)
    ex_round_trip false (mkWorld [ex_station; ex_station_left] 0).
Proof.
  split; [reflexivity|]. split; [exact (rationals_exact_on_integers 2)|].
  split; [simpl; lia|]. split; [exact ex_round_trip_live|].
  apply (discount_one_is_no_discount ex_mdp Qc Z2Qc Qcplus Qcmult Qcpower (Z2Qc 1)
           _ _ 2 eq_refl (rationals_exact_on_integers 2)); [simpl; lia|].
  exact ex_round_trip_live.
Defined.

Lemma reachable_station_left :
  reachable ex_mdp ex_draws 1 ex_station (mkWorld [ex_station; ex_station_left] 1).
Proof.
  apply (reach_call ex_mdp ex_draws 1 ex_station (mkWorld [ex_station] 0) 0 "right"
           _ (inr 1)).
  - apply reach_init.
  - simpl. lia.
  - by_computation.
Defined.

Lemma complexity_is_bounded_by_the_initial_one_witness :
  reachable ex_mdp ex_draws 1 ex_station (mkWorld [ex_station; ex_station_left] 1) ∧
  heap (mkWorld [ex_station; ex_station_left] 1) !! 1 = Some ex_station_left ∧
  measure_env_complexity ex_mdp 0 None (mkWorld [ex_station; ex_station_left] 1)
    = (mkWorld [ex_station; ex_station_left] 1, inr 4) ∧
  measure_env_complexity ex_mdp 0 (Some 1) (mkWorld [ex_station; ex_station_left] 1)
    = (mkWorld [ex_station; ex_station_left] 1, inr 3).
Proof.
  split; [exact reachable_station_left|]. split; [reflexivity|].
  destruct (complexity_is_bounded_by_the_initial_one ex_mdp ex_draws 1 ex_station _ 1
              ex_station_left reachable_station_left eq_refl) as (Hnone & Hsome & _).
  split; [exact Hnone|exact Hsome].
Defined.

Lemma constructor_settles_actions_and_capabilities_witness :
  ex_mdp = inst_mdp ex_instance ∧
  reachable ex_mdp ex_draws 1 (inst_init_state ex_instance)
            (mkWorld [ex_station; ex_station_left] 1) ∧
  inst_actions ex_instance = BASE_ACTIONS ∧
  ((∃ w' l', _taxi_transition_func ex_mdp ex_draws 1 (StateArg 1) "refuel"
               (mkWorld [ex_station; ex_station_left] 1) = (w', inr l')) ↔
   "refuel" ∈ inst_actions ex_instance).
Proof.
  split; [reflexivity|]. split; [exact reachable_station_left|]. split; [reflexivity|].
  exact (proj1 (constructor_settles_actions_and_capabilities ex_mdp ex_draws 1
                  3 3 (mkAgent 1 1 0 None) [] [mkPassenger 2 2 3 3 0]
                  [mkCell 2 1] [] [mkFuelStation 1 1 10]
                  [mkCell 3 3; mkCell 1 1; mkCell 1 1] 0%Qc (Q2Qc (99 # 100)) None
                  ex_instance _ 1 ex_station_left 0 ex_station "refuel"
                  eq_refl eq_refl reachable_station_left eq_refl eq_refl)).
Defined.
